(** * Angular error metrics, circular losses and a non-negative initializer

    A shallow embedding of [acc.py], [losses.py] and [weight_initializers.py]
    and the properties of these functions.

    Numbers.  NumPy and TensorFlow compute on IEEE floats; here a number is a
    real ([R]), so rounding, infinities and NaN are outside the model.  Every
    place where the Python code would produce NaN or raise (the mean of an
    empty batch, a division by an integer zero, an index past the end of a
    shape, arrays whose shapes differ, an item assignment into a scalar, an
    element type the framework refuses) yields [None].

    Arrays.  An array is its shape and its elements in row-major order.
    [acc.py] mutates NumPy arrays in place, so its functions run in a store
    of arrays addressed by references; TensorFlow tensors are immutable and
    are plain values. *)

From Stdlib Require Import Reals Lra Lia List Arith Bool ZArith.
Import ListNotations.
Local Open Scope R_scope.

(* ===================================================================== *)
(** * Arrays *)
(* ===================================================================== *)

Record ndarray : Type := mk_ndarray { shape : list nat; data : list R }.

(** Number of elements of an array of a given shape. *)
Definition size_of (sh : list nat) : nat := fold_right Nat.mul 1%nat sh.

Definition shape_eqb (s1 s2 : list nat) : bool :=
  if list_eq_dec Nat.eq_dec s1 s2 then true else false.

(** Comparisons of reals as booleans, as the elementwise [>] and [<] give. *)
Definition Rgtb (x y : R) : bool := if Rgt_dec x y then true else false.
Definition Rltb (x y : R) : bool := if Rlt_dec x y then true else false.

(** [c - a] and [c + a] with a scalar on the left, elementwise. *)
Definition scalar_rsub (c : R) (l : list R) : list R := map (fun x => c - x) l.
Definition scalar_add (c : R) (l : list R) : list R := map (fun x => c + x) l.

Fixpoint zip_with (f : R -> R -> R) (l1 l2 : list R) : list R :=
  match l1, l2 with
  | x :: l1', y :: l2' => f x y :: zip_with f l1' l2'
  | _, _ => []
  end.

Definition Rsum (l : list R) : R := fold_right Rplus 0 l.

(** [a[mask]]: the elements under a true mask entry, in order. *)
Fixpoint select (mask : list bool) (l : list R) : list R :=
  match mask, l with
  | true :: mask', x :: l' => x :: select mask' l'
  | false :: mask', _ :: l' => select mask' l'
  | _, _ => []
  end.

(** [a[mask] = vals]: the values are consumed in order by the positions whose
    mask entry is true; the other positions keep their element. *)
Fixpoint assign (mask : list bool) (l vals : list R) : list R :=
  match mask, l with
  | true :: mask', x :: l' =>
      match vals with
      | v :: vals' => v :: assign mask' l' vals'
      | [] => x :: assign mask' l' []
      end
  | false :: mask', x :: l' => x :: assign mask' l' vals
  | _, _ => l
  end.

Definition count_true (mask : list bool) : nat :=
  length (filter (fun b => b) mask).

(** [np.mean(a, axis=0)]: for an array of shape [n :: rest] the result has
    shape [rest]; entry [j] is the mean of the [n] entries [i * m + j], with
    [m] the size of [rest].  An empty leading axis gives NaN and a
    zero-dimensional array has no axis 0. *)
Definition column (m : nat) (d : list R) (n j : nat) : list R :=
  map (fun i => nth (i * m + j) d 0) (seq 0 n).

Definition np_mean_axis0 (a : ndarray) : option ndarray :=
  match shape a with
  | [] => None
  | O :: _ => None
  | n :: rest =>
      let m := size_of rest in
      Some (mk_ndarray rest
              (map (fun j => Rsum (column m (data a) n j) / INR n) (seq 0 m)))
  end.

(* ===================================================================== *)
(** * The store of arrays *)
(* ===================================================================== *)

Definition ref : Type := nat.
Definition store : Type := list ndarray.

(** A computation reads and writes the store and may raise. *)
Definition M (A : Type) : Type := store -> option (A * store).

Definition ret {A : Type} (x : A) : M A := fun s => Some (x, s).

Definition bind {A B : Type} (c : M A) (k : A -> M B) : M B :=
  fun s => match c s with
           | Some (x, s') => k x s'
           | None => None
           end.

Definition raise {A : Type} : M A := fun _ => None.

Declare Scope np_scope.
Delimit Scope np_scope with np.
Notation "x <- c ;; k" := (bind c (fun x => k))
  (at level 61, c at next level, right associativity) : np_scope.
Notation "c ;;; k" := (bind c (fun _ => k))
  (at level 61, right associativity) : np_scope.

Definition lookup (s : store) (r : ref) : option ndarray := nth_error s r.

Fixpoint update (s : store) (r : ref) (a : ndarray) : store :=
  match s, r with
  | [], _ => []
  | _ :: s', O => a :: s'
  | b :: s', S r' => b :: update s' r' a
  end.

Definition read (r : ref) : M ndarray :=
  fun s => match lookup s r with
           | Some a => Some (a, s)
           | None => None
           end.

Definition write (r : ref) (a : ndarray) : M unit :=
  fun s => match lookup s r with
           | Some _ => Some (tt, update s r a)
           | None => None
           end.

(** A new array object gets the next free reference. *)
Definition alloc (a : ndarray) : M ref :=
  fun s => Some (length s, s ++ [a]).

Local Open Scope np_scope.

(** [a.copy()] *)
Definition np_copy (r : ref) : M ref :=
  a <- read r ;; alloc a.

(** What an arithmetic expression gives: an array object of the store, or
    a NumPy scalar, which is a number and cannot be assigned into. *)
Inductive value : Type :=
  | Arr (r : ref)
  | Num (x : R).

(** [a - b] for arrays of one shape.  For arrays of one dimension or more
    the result is a new array; for two zero-dimensional arrays NumPy returns
    a scalar.  Shapes that differ are outside the contract of these
    functions (NumPy broadcasts them or raises). *)
Definition np_sub (r1 r2 : ref) : M value :=
  a <- read r1 ;;
  b <- read r2 ;;
  if shape_eqb (shape a) (shape b)
  then match shape a with
       | [] => ret (Num (nth 0 (zip_with Rminus (data a) (data b)) 0))
       | _ :: _ =>
           r <- alloc (mk_ndarray (shape a)
                         (zip_with Rminus (data a) (data b))) ;;
           ret (Arr r)
       end
  else raise.

(** A function that assigns into its argument, called on a value: on an
    array it runs, on a scalar the item assignment raises [TypeError]. *)
Definition on_array (f : ref -> M ref) (v : value) : M ref :=
  match v with
  | Arr r => f r
  | Num _ => raise
  end.

(** The elements of a value, for the arithmetic that reads them: a scalar
    counts as a zero-dimensional array. *)
Definition contents (v : value) : M ndarray :=
  match v with
  | Arr r => read r
  | Num x => ret (mk_ndarray [] [x])
  end.

(** [a[p(a)]] with an elementwise predicate [p]: the selected elements, a
    temporary that is not shared with [a]. *)
Definition getitem (r : ref) (p : R -> bool) : M (list R) :=
  a <- read r ;; ret (select (map p (data a)) (data a)).

(** [a[p(a)] = vals]: the mask is taken from the current contents of [a],
    then [a] is updated in place.  NumPy raises when the number of values
    is not the number of selected positions (a single value apart, which
    it repeats; the functions below never pass one for another count). *)
Definition setitem (r : ref) (p : R -> bool) (vals : list R) : M unit :=
  a <- read r ;;
  let mask := map p (data a) in
  if (length vals =? count_true mask)%nat
  then write r (mk_ndarray (shape a) (assign mask (data a) vals))
  else raise.

(* ===================================================================== *)
(** * acc.py *)
(* ===================================================================== *)

Module acc.

Definition _bring_preds_within_range (y_preds : ref) : M ref :=
  y_pred_reflect <- np_copy y_preds ;;
  (* Bring predictions >180 to within range *)
  sel <- getitem y_pred_reflect (fun x => Rgtb x 180) ;;
  setitem y_pred_reflect (fun x => Rgtb x 180)
          (scalar_add 180 (scalar_rsub 180 sel)) ;;;
  (* Bring predictions < -180 to within range *)
  sel <- getitem y_pred_reflect (fun x => Rltb x (-180)) ;;
  setitem y_pred_reflect (fun x => Rltb x (-180))
          (scalar_add (-180) (scalar_rsub (-180) sel)) ;;;
  ret y_pred_reflect.

Definition _circ_error_diff (diff : ref) : M ref :=
  (* Wrap around errors larger than 180 degrees *)
  sel <- getitem diff (fun x => Rgtb x 180) ;;
  setitem diff (fun x => Rgtb x 180) (scalar_rsub 360 sel) ;;;
  sel <- getitem diff (fun x => Rltb x (-180)) ;;
  setitem diff (fun x => Rltb x (-180)) (scalar_rsub (-360) sel) ;;;
  ret diff.

Definition circ_error (y_pred y_true : ref) : M ref :=
  y_pred_reflect <- _bring_preds_within_range y_pred ;;
  diff <- np_sub y_pred_reflect y_true ;;
  diff <- on_array _circ_error_diff diff ;;
  ret diff.

(** The result of the reduction is a new object handed to the caller; it is
    returned as a value. *)
Definition mse (y_pred y_true : ref) (circ_correction : bool) : M ndarray :=
  diff <- (if negb circ_correction
           then np_sub y_pred y_true
           else (r <- circ_error y_pred y_true ;; ret (Arr r))) ;;
  d <- contents diff ;;
  match np_mean_axis0 (mk_ndarray (shape d) (map (fun x => x ^ 2) (data d))) with
  | Some m => ret m
  | None => raise
  end.

Definition mae (y_pred y_true : ref) (circ_correction : bool) : M ndarray :=
  diff <- (if negb circ_correction
           then np_sub y_pred y_true
           else (r <- circ_error y_pred y_true ;; ret (Arr r))) ;;
  d <- contents diff ;;
  match np_mean_axis0 (mk_ndarray (shape d) (map Rabs (data d))) with
  | Some m => ret m
  | None => raise
  end.

End acc.

Local Close Scope np_scope.

(* ===================================================================== *)
(** * Tensors *)
(* ===================================================================== *)

(** A TensorFlow tensor is an immutable array value. *)
Definition tensor : Type := ndarray.

Definition tensor_map (f : R -> R) (t : tensor) : tensor :=
  mk_ndarray (shape t) (map f (data t)).

(** [a - b] on tensors of one shape. *)
Definition tf_sub (a b : tensor) : option tensor :=
  if shape_eqb (shape a) (shape b)
  then Some (mk_ndarray (shape a) (zip_with Rminus (data a) (data b)))
  else None.

(** [tf.reduce_mean] without an axis: the mean of all elements, a scalar.
    The mean of no elements is NaN. *)
Definition reduce_mean (t : tensor) : option R :=
  match data t with
  | [] => None
  | _ :: _ => Some (Rsum (data t) / INR (length (data t)))
  end.

(* ===================================================================== *)
(** * losses.py *)
(* ===================================================================== *)

Module losses.

(** What [super().__init__()] sets on a loss object: the framework's
    defaults, whatever the subclass constructor was given. *)
Inductive Reduction : Type := sum_over_batch_size.

Record Loss : Type := mk_Loss { reduction : Reduction }.

Definition Loss__init__ : Loss := mk_Loss sum_over_batch_size.

Record CircularLoss : Type := mk_CircularLoss { CircularLoss_super : Loss }.

Definition CircularLoss__init__ {E : Type} (exp : E) : CircularLoss :=
  mk_CircularLoss Loss__init__.

Definition CircularLoss_call (self : CircularLoss) (y_true y_pred : tensor)
  : option R :=
  (* y_true and y_pred range: [-0.5, +0.5]; diff range: [-1, +1] *)
  match tf_sub y_pred y_true with
  | Some diff =>
      reduce_mean
        (tensor_map Rabs
           (tensor_map (fun x => Rmax x 1e-10)
              (tensor_map (fun x => 0.5 * x)
                 (tensor_map (fun x => 1 - x)
                    (tensor_map cos
                       (tensor_map (fun x => PI * x) diff))))))
  | None => None
  end.

Record MSE : Type := mk_MSE { MSE_super : Loss }.

Definition MSE__init__ {E : Type} (exp : E) : MSE := mk_MSE Loss__init__.

Definition MSE_call (self : MSE) (y_true y_pred : tensor) : option R :=
  match tf_sub y_pred y_true with
  | Some diff =>
      reduce_mean (tensor_map (fun x => x ^ 2) (tensor_map Rabs diff))
  | None => None
  end.

End losses.

(* ===================================================================== *)
(** * weight_initializers.py *)
(* ===================================================================== *)

Module weight_initializers.

(** Element types of the framework. *)
Inductive DType : Type :=
  | float16 | bfloat16 | float32 | float64 | int32 | int64.

Definition DType_eqb (d1 d2 : DType) : bool :=
  match d1, d2 with
  | float16, float16 | bfloat16, bfloat16 | float32, float32
  | float64, float64 | int32, int32 | int64, int64 => true
  | _, _ => false
  end.

(** A scalar tensor: a number and its element type. *)
Record scalar_tensor : Type :=
  mk_scalar_tensor { st_value : R; st_dtype : DType }.

(** [tf.sqrt] of a Python float: the float becomes a [float32] tensor. *)
Definition tf_sqrt (x : R) : scalar_tensor :=
  mk_scalar_tensor (sqrt x) float32.

Definition tf_neg (t : scalar_tensor) : scalar_tensor :=
  mk_scalar_tensor (- st_value t) (st_dtype t).

(** [tf.random.uniform(shape, minval, maxval, seed, dtype)].  The
    framework's generator is not part of this code: [gen seed i] stands for
    the [i]-th number in [0, 1) it yields for this call, and a sample is
    that number scaled into [minval, maxval).  No [dtype] raises
    [TypeError]; a [dtype] other than that of the tensors [minval] and
    [maxval] raises [ValueError], since a tensor is not converted to another
    element type. *)
Definition random_uniform (gen : option Z -> nat -> R) (sh : list nat)
  (minval maxval : scalar_tensor) (seed : option Z) (dtype : option DType)
  : option tensor :=
  match dtype with
  | None => None
  | Some d =>
      if DType_eqb (st_dtype minval) d && DType_eqb (st_dtype maxval) d
      then Some (mk_ndarray sh
                   (map (fun i => st_value minval
                                  + gen seed i
                                    * (st_value maxval - st_value minval))
                        (seq 0 (size_of sh))))
      else None
  end.

Record GlorotUniformNonNegative : Type :=
  mk_GlorotUniformNonNegative { seed : option Z }.

Definition __init__ (seed : option Z) : GlorotUniformNonNegative :=
  mk_GlorotUniformNonNegative seed.

(** [shape[-2], shape[-1]] raises on a shape of rank below 2, and
    [6.0 / (fan_in + fan_out)] raises when both are 0.  The parameter
    [dtype] has the default [None] in the source. *)
Definition __call__ (self : GlorotUniformNonNegative)
  (gen : option Z -> nat -> R) (sh : list nat) (dtype : option DType)
  : option tensor :=
  match rev sh with
  | fan_out :: fan_in :: _ =>
      if (fan_in + fan_out =? 0)%nat then None
      else
        let edge := tf_sqrt (6.0 / INR (fan_in + fan_out)) in
        match random_uniform gen sh (tf_neg edge) edge (seed self) dtype with
        | Some wts => Some (tensor_map Rabs wts)
        | None => None
        end
  | _ => None
  end.

End weight_initializers.

(* ===================================================================== *)
(** * What the in-place assignments do to one element *)
(* ===================================================================== *)

(** The two masked assignments of [_bring_preds_within_range], seen from one
    element: the second test reads what the first assignment left. *)
Definition reflect_elem (v : R) : R :=
  let v1 := if Rgtb v 180 then 180 + (180 - v) else v in
  if Rltb v1 (-180) then -180 + (-180 - v1) else v1.

(** The two masked assignments of [_circ_error_diff], seen from one element. *)
Definition wrap_elem (d : R) : R :=
  let d1 := if Rgtb d 180 then 360 - d else d in
  if Rltb d1 (-180) then -360 - d1 else d1.

(** The element of [circ_error] for a prediction [x] and a true value [y]. *)
Definition circ_elem (x y : R) : R := wrap_elem (reflect_elem x - y).

(** Angles between -180 and 180 degrees, both ends included. *)
Definition in_range (x : R) : Prop := -180 <= x <= 180.

(** The array a computation returns, read from the store it leaves. *)
Definition result_of (c : M ref) (s : store) : option ndarray :=
  match c s with
  | Some (r, s') => lookup s' r
  | None => None
  end.

(** The elements of the value a computation returns. *)
Definition result_of_value (c : M value) (s : store) : option ndarray :=
  match c s with
  | Some (Arr r, s') => lookup s' r
  | Some (Num x, _) => Some (mk_ndarray [] [x])
  | None => None
  end.

(** The value a computation returns, without the store. *)
Definition value_of {A : Type} (c : M A) (s : store) : option A :=
  match c s with
  | Some (x, _) => Some x
  | None => None
  end.

(** A one-dimensional array. *)
Definition vec (l : list R) : ndarray := mk_ndarray [length l] l.

(** A zero-dimensional array: one number. *)
Definition scalar (x : R) : ndarray := mk_ndarray [] [x].

(** The difference array that [mse] and [mae] reduce, and the store they
    leave, for each value of the flag. *)
Definition diff_data (circ_correction : bool) (a b : ndarray) : list R :=
  if circ_correction
  then zip_with circ_elem (data a) (data b)
  else zip_with Rminus (data a) (data b).

Definition diff_store (circ_correction : bool) (s : store) (a b : ndarray)
  : store :=
  if circ_correction
  then (s ++ [mk_ndarray (shape a) (map reflect_elem (data a))])
         ++ [mk_ndarray (shape a) (diff_data true a b)]
  else s ++ [mk_ndarray (shape a) (diff_data false a b)].

(** The loss of the circular loss without the outer absolute value. *)
Definition CircularLoss_call_without_abs (y_true y_pred : tensor) : option R :=
  match tf_sub y_pred y_true with
  | Some diff =>
      reduce_mean
        (tensor_map (fun x => Rmax (0.5 * (1 - cos (PI * x))) 1e-10) diff)
  | None => None
  end.

(** The length of the shorter way round the circle between two directions
    that differ by [d] degrees, for [d] in [-360, 360]. *)
Definition shorter_path (d : R) : R := Rmin (Rabs d) (360 - Rabs d).

(* ===================================================================== *)
(** * The store *)
(* ===================================================================== *)

Section Store.

Implicit Types (s : store) (r : ref) (a b : ndarray).

Lemma lookup_lt s r a : lookup s r = Some a -> (r < length s)%nat.
Proof.
  unfold lookup. intros H. apply nth_error_Some. congruence.
Qed.

Lemma lookup_app_old s r a : (r < length s)%nat -> lookup (s ++ [a]) r = lookup s r.
Proof. unfold lookup. intros H. now apply nth_error_app1. Qed.

Lemma lookup_app_new s a : lookup (s ++ [a]) (length s) = Some a.
Proof.
  unfold lookup. rewrite nth_error_app2 by lia.
  now rewrite Nat.sub_diag.
Qed.

Lemma update_length s r a : length (update s r a) = length s.
Proof.
  revert r. induction s as [|b s IH]; intros [|r]; simpl; auto.
Qed.

Lemma lookup_update_same s r a :
  (r < length s)%nat -> lookup (update s r a) r = Some a.
Proof.
  unfold lookup. revert r.
  induction s as [|b s IH]; intros [|r]; simpl; intros H; try lia; auto.
  apply IH. lia.
Qed.

Lemma lookup_update_other s r r' a :
  r <> r' -> lookup (update s r a) r' = lookup s r'.
Proof.
  unfold lookup. revert r r'.
  induction s as [|b s IH]; intros [|r] [|r'] H; simpl; auto; try congruence.
Qed.

Lemma update_update s r a b : update (update s r a) r b = update s r b.
Proof.
  revert r. induction s as [|c s IH]; intros [|r]; simpl; auto.
  now rewrite IH.
Qed.

Lemma update_app_new s a b : update (s ++ [a]) (length s) b = s ++ [b].
Proof. induction s as [|c s IH]; simpl; auto. now rewrite IH. Qed.

End Store.

(* ===================================================================== *)
(** * Masked selection and assignment *)
(* ===================================================================== *)

Section Masks.

Variable p : R -> bool.
Variable f : R -> R.

Lemma select_length (l : list R) :
  length (select (map p l) l) = count_true (map p l).
Proof.
  unfold count_true.
  induction l as [|x l IH]; simpl; auto.
  destruct (p x); simpl; auto.
Qed.

(** Assigning [f] of the selected elements back under the same mask maps
    [f] over the elements that satisfy the test and keeps the others. *)
Lemma assign_select (l : list R) :
  assign (map p l) l (map f (select (map p l) l))
  = map (fun x => if p x then f x else x) l.
Proof.
  induction l as [|x l IH]; simpl; auto.
  destruct (p x); simpl; now rewrite IH.
Qed.

Lemma masked_update (r : ref) (a : ndarray) (s : store) :
  lookup s r = Some a ->
  bind (getitem r p) (fun sel => setitem r p (map f sel)) s
  = Some (tt, update s r
                (mk_ndarray (shape a)
                   (map (fun x => if p x then f x else x) (data a)))).
Proof.
  intros H.
  unfold bind, getitem, setitem, read, write, ret, bind. rewrite H. simpl.
  rewrite H.
  rewrite length_map, select_length, Nat.eqb_refl.
  now rewrite H, assign_select.
Qed.

End Masks.

Lemma masked_update_then {B : Type} (p : R -> bool) (f : R -> R)
  (g : list R -> list R) (k : M B) (r : ref) (a : ndarray) (s : store) :
  (forall l, g l = map f l) ->
  lookup s r = Some a ->
  bind (getitem r p) (fun sel => bind (setitem r p (g sel)) (fun _ => k)) s
  = k (update s r
         (mk_ndarray (shape a)
            (map (fun x => if p x then f x else x) (data a)))).
Proof.
  intros Hg H.
  pose proof (masked_update p f r a s H) as E.
  unfold bind in *.
  destruct (getitem r p s) as [[sel s1]|]; [|discriminate].
  rewrite Hg.
  destruct (setitem r p (map f sel) s1) as [[[] s2]|]; [|discriminate].
  now inversion E.
Qed.

(* ===================================================================== *)
(** * acc.py: what each function returns and what it leaves in the store *)
(* ===================================================================== *)

Section AccSemantics.

Implicit Types (s : store) (a b : ndarray).

(** The reflection returns a new array, after every array of the store, with
    [reflect_elem] applied to each element of its argument. *)
Lemma _bring_preds_within_range_run s y_preds a :
  lookup s y_preds = Some a ->
  acc._bring_preds_within_range y_preds s
  = Some (length s,
          s ++ [mk_ndarray (shape a) (map reflect_elem (data a))]).
Proof.
  intros H.
  unfold acc._bring_preds_within_range, np_copy, alloc.
  unfold bind at 1. unfold bind at 1. unfold read. rewrite H.
  rewrite (masked_update_then (fun x => Rgtb x 180) (fun x => 180 + (180 - x)))
    with (a := a).
  - rewrite (masked_update_then (fun x => Rltb x (-180))
               (fun x => -180 + (-180 - x)))
      with (a := mk_ndarray (shape a)
                   (map (fun x => if Rgtb x 180 then 180 + (180 - x) else x)
                        (data a))).
    + unfold ret. rewrite update_update, update_app_new. simpl.
      now rewrite map_map.
    + intros l. unfold scalar_add, scalar_rsub. now rewrite map_map.
    + rewrite update_app_new. apply lookup_app_new.
  - intros l. unfold scalar_add, scalar_rsub. now rewrite map_map.
  - apply lookup_app_new.
Qed.

(** The wrap-around returns the reference it was given, and the array at
    that reference has [wrap_elem] applied to each element. *)
Lemma _circ_error_diff_run s diff a :
  lookup s diff = Some a ->
  acc._circ_error_diff diff s
  = Some (diff,
          update s diff (mk_ndarray (shape a) (map wrap_elem (data a)))).
Proof.
  intros H. pose proof (lookup_lt _ _ _ H) as Hlt.
  unfold acc._circ_error_diff.
  rewrite (masked_update_then (fun x => Rgtb x 180) (fun x => 360 - x))
    with (a := a); auto.
  rewrite (masked_update_then (fun x => Rltb x (-180)) (fun x => -360 - x))
    with (a := mk_ndarray (shape a)
                 (map (fun x => if Rgtb x 180 then 360 - x else x) (data a))).
  - unfold ret. rewrite update_update. simpl. now rewrite map_map.
  - reflexivity.
  - now apply lookup_update_same.
Qed.

Lemma zip_with_map_l (g : R -> R -> R) (h : R -> R) (l1 l2 : list R) :
  zip_with g (map h l1) l2 = zip_with (fun x y => g (h x) y) l1 l2.
Proof.
  revert l2. induction l1 as [|x l1 IH]; intros [|y l2]; simpl; auto.
  now rewrite IH.
Qed.

Lemma map_zip_with (g : R -> R -> R) (h : R -> R) (l1 l2 : list R) :
  map h (zip_with g l1 l2) = zip_with (fun x y => h (g x y)) l1 l2.
Proof.
  revert l2. induction l1 as [|x l1 IH]; intros [|y l2]; simpl; auto.
  now rewrite IH.
Qed.

Lemma shape_eqb_refl (sh : list nat) : shape_eqb sh sh = true.
Proof. unfold shape_eqb. destruct (list_eq_dec Nat.eq_dec sh sh); congruence. Qed.

Lemma shape_eqb_true (s1 s2 : list nat) : shape_eqb s1 s2 = true -> s1 = s2.
Proof.
  unfold shape_eqb. destruct (list_eq_dec Nat.eq_dec s1 s2); congruence.
Qed.

(** The difference of arrays of one dimension or more is a new array. *)
Lemma np_sub_run s r1 r2 a b :
  lookup s r1 = Some a -> lookup s r2 = Some b -> shape a = shape b ->
  shape a <> [] ->
  np_sub r1 r2 s
  = Some (Arr (length s),
          s ++ [mk_ndarray (shape a) (zip_with Rminus (data a) (data b))]).
Proof.
  intros Ha Hb Hs Hr. unfold np_sub, bind, read. rewrite Ha, Hb, <- Hs.
  rewrite shape_eqb_refl.
  destruct (shape a) as [|n rest]; [congruence | reflexivity].
Qed.

(** The difference of two zero-dimensional arrays is a scalar, and nothing
    is added to the store. *)
Lemma np_sub_run_scalar s r1 r2 a b :
  lookup s r1 = Some a -> lookup s r2 = Some b -> shape a = shape b ->
  shape a = [] ->
  np_sub r1 r2 s
  = Some (Num (nth 0 (zip_with Rminus (data a) (data b)) 0), s).
Proof.
  intros Ha Hb Hs Hr. unfold np_sub, bind, read. rewrite Ha, Hb, <- Hs.
  rewrite shape_eqb_refl. now rewrite Hr.
Qed.

(** [circ_error] adds two arrays to the store, the reflected predictions and
    the difference, and returns the second. *)
Lemma circ_error_run s y_pred y_true a b :
  lookup s y_pred = Some a -> lookup s y_true = Some b -> shape a = shape b ->
  shape a <> [] ->
  acc.circ_error y_pred y_true s
  = Some (S (length s),
          (s ++ [mk_ndarray (shape a) (map reflect_elem (data a))])
            ++ [mk_ndarray (shape a) (zip_with circ_elem (data a) (data b))]).
Proof.
  intros Ha Hb Hs Hr.
  pose proof (lookup_lt _ _ _ Hb) as Hlt.
  unfold acc.circ_error. unfold bind at 1.
  rewrite (_bring_preds_within_range_run s y_pred a Ha).
  set (s1 := s ++ [mk_ndarray (shape a) (map reflect_elem (data a))]).
  assert (L1 : length s1 = S (length s)).
  { unfold s1. rewrite length_app. simpl. lia. }
  unfold bind at 1.
  rewrite (np_sub_run s1 (length s) y_true
             (mk_ndarray (shape a) (map reflect_elem (data a))) b).
  - unfold bind, on_array.
    rewrite (_circ_error_diff_run _ (length s1)
               (mk_ndarray (shape a)
                  (zip_with Rminus (map reflect_elem (data a)) (data b)))).
    + unfold ret. rewrite update_app_new, L1. simpl.
      now rewrite zip_with_map_l, map_zip_with.
    + apply lookup_app_new.
  - apply lookup_app_new.
  - unfold s1. now rewrite lookup_app_old.
  - exact Hs.
  - exact Hr.
Qed.

(** On zero-dimensional arrays the difference is a scalar and the
    wrap-around cannot assign into it: [circ_error] raises. *)
Lemma circ_error_run_scalar s y_pred y_true a b :
  lookup s y_pred = Some a -> lookup s y_true = Some b -> shape a = shape b ->
  shape a = [] ->
  acc.circ_error y_pred y_true s = None.
Proof.
  intros Ha Hb Hs Hr.
  pose proof (lookup_lt _ _ _ Hb) as Hlt.
  unfold acc.circ_error. unfold bind at 1.
  rewrite (_bring_preds_within_range_run s y_pred a Ha).
  unfold bind at 1.
  rewrite (np_sub_run_scalar _ (length s) y_true
             (mk_ndarray (shape a) (map reflect_elem (data a))) b);
    [reflexivity | apply lookup_app_new | now rewrite lookup_app_old
    | exact Hs | exact Hr].
Qed.

End AccSemantics.

(* ===================================================================== *)
(** * One element: reflection and wrap-around *)
(* ===================================================================== *)

Ltac by_cases :=
  unfold circ_elem, wrap_elem, reflect_elem, in_range, Rgtb, Rltb in *;
  repeat match goal with
         | |- context [Rgt_dec ?x ?y] => destruct (Rgt_dec x y)
         | |- context [Rlt_dec ?x ?y] => destruct (Rlt_dec x y)
         | H : context [Rgt_dec ?x ?y] |- _ => destruct (Rgt_dec x y)
         | H : context [Rlt_dec ?x ?y] |- _ => destruct (Rlt_dec x y)
         end;
  try lra.

Section Elements.

Implicit Types v d x y : R.

(** The wrap-around and the reflection are one function of the element. *)
Lemma wrap_elem_reflect_elem d : wrap_elem d = reflect_elem d.
Proof. by_cases. Qed.

Lemma reflect_elem_id v : -180 <= v <= 180 -> reflect_elem v = v.
Proof. intros H. by_cases. Qed.

Lemma reflect_elem_above v : 180 < v <= 540 -> reflect_elem v = 180 + (180 - v).
Proof. intros H. by_cases. Qed.

(** Past 540 the mirrored value is below -180 and is mirrored again. *)
Lemma reflect_elem_far_above v : 540 < v -> reflect_elem v = v - 720.
Proof. intros H. by_cases. Qed.

Lemma reflect_elem_below v : v < -180 -> reflect_elem v = -180 + (-180 - v).
Proof. intros H. by_cases. Qed.

Lemma reflect_elem_in_range v : in_range (reflect_elem v) <-> -540 <= v <= 900.
Proof. split; intros H; by_cases. Qed.

Lemma wrap_elem_in_range d : in_range (wrap_elem d) <-> -540 <= d <= 900.
Proof. rewrite wrap_elem_reflect_elem. apply reflect_elem_in_range. Qed.

(** The wrap-around brings back what the reflection leaves within 540 of
    the range. *)
Lemma circ_elem_in_range_wide x y :
  -1080 <= x <= 1440 -> in_range y -> in_range (circ_elem x y).
Proof. intros Hx Hy. by_cases. Qed.

Lemma circ_elem_in_range x y :
  -540 <= x <= 900 -> in_range y -> in_range (circ_elem x y).
Proof.
  intros Hx Hy. unfold circ_elem.
  apply wrap_elem_in_range.
  apply reflect_elem_in_range in Hx. unfold in_range in *. lra.
Qed.

(** Between two angles in range the result has the length of the shorter
    way round and the sign of the plain difference. *)
Lemma circ_elem_shorter_path x y :
  in_range x -> in_range y ->
  Rabs (circ_elem x y) = shorter_path (x - y) /\ 0 <= circ_elem x y * (x - y).
Proof.
  intros Hx Hy. unfold shorter_path, Rmin, Rabs.
  destruct (Rcase_abs (x - y)); destruct (Rcase_abs (circ_elem x y));
    destruct (Rle_dec _ _); by_cases; split; try lra; nra.
Qed.

End Elements.

(* ===================================================================== *)
(** * Lists of elements *)
(* ===================================================================== *)

Section Lists.

Variable g : R -> R -> R.

Lemma zip_with_length (l1 l2 : list R) :
  length (zip_with g l1 l2) = Nat.min (length l1) (length l2).
Proof.
  revert l2. induction l1 as [|x l1 IH]; intros [|y l2]; simpl; auto.
Qed.

Lemma zip_with_nth (l1 l2 : list R) (i : nat) :
  (i < length l1)%nat -> (i < length l2)%nat ->
  nth i (zip_with g l1 l2) 0 = g (nth i l1 0) (nth i l2 0).
Proof.
  revert l2 i. induction l1 as [|x l1 IH]; intros [|y l2] [|i]; simpl;
    intros H1 H2; try lia; auto.
  apply IH; lia.
Qed.

Lemma zip_with_Forall (P1 P2 Q : R -> Prop) (l1 l2 : list R) :
  (forall x y, P1 x -> P2 y -> Q (g x y)) ->
  Forall P1 l1 -> Forall P2 l2 -> Forall Q (zip_with g l1 l2).
Proof.
  intros HQ H1. revert l2.
  induction H1 as [|x l1 Hx _ IH]; intros l2 H2; simpl; auto.
  destruct H2 as [|y l2 Hy H2]; auto.
Qed.

End Lists.

Lemma map_nth_lt (f : R -> R) (l : list R) (i : nat) :
  (i < length l)%nat -> nth i (map f l) 0 = f (nth i l 0).
Proof.
  revert i. induction l as [|x l IH]; intros [|i]; simpl; intros H;
    try lia; auto.
  apply IH. lia.
Qed.

(* ===================================================================== *)
(** * acc.py: the arrays returned *)
(* ===================================================================== *)

Section AccResults.

Implicit Types (s : store) (a b : ndarray).

Lemma _bring_preds_within_range_result s y_preds a :
  lookup s y_preds = Some a ->
  result_of (acc._bring_preds_within_range y_preds) s
  = Some (mk_ndarray (shape a) (map reflect_elem (data a))).
Proof.
  intros H. unfold result_of.
  rewrite (_bring_preds_within_range_run s y_preds a H).
  apply lookup_app_new.
Qed.

Lemma circ_error_result s y_pred y_true a b :
  lookup s y_pred = Some a -> lookup s y_true = Some b -> shape a = shape b ->
  shape a <> [] ->
  result_of (acc.circ_error y_pred y_true) s
  = Some (mk_ndarray (shape a) (zip_with circ_elem (data a) (data b))).
Proof.
  intros Ha Hb Hs Hr. unfold result_of.
  rewrite (circ_error_run s y_pred y_true a b Ha Hb Hs Hr).
  set (s1 := s ++ _).
  replace (S (length s)) with (length s1).
  - apply lookup_app_new.
  - unfold s1. rewrite length_app. simpl. lia.
Qed.

(** Every array that was in the store before [circ_error] ran is there
    afterwards, unchanged. *)
Lemma circ_error_preserves s s' y_pred y_true d r :
  acc.circ_error y_pred y_true s = Some (d, s') ->
  (r < length s)%nat -> lookup s' r = lookup s r.
Proof.
  intros Hrun Hr.
  unfold acc.circ_error, bind in Hrun.
  destruct (acc._bring_preds_within_range y_pred s) as [[r1 s1]|] eqn:E1;
    [|discriminate].
  assert (exists a, lookup s y_pred = Some a) as [a Ha].
  { unfold acc._bring_preds_within_range, np_copy, bind, read in E1.
    destruct (lookup s y_pred) as [a|]; [now exists a | discriminate]. }
  rewrite (_bring_preds_within_range_run s y_pred a Ha) in E1.
  inversion E1; subst r1 s1; clear E1.
  destruct (np_sub (length s) y_true _) as [[v2 s2]|] eqn:E2; [|discriminate].
  unfold np_sub, bind, read in E2.
  rewrite lookup_app_new in E2.
  destruct (lookup _ y_true) as [b|]; [|discriminate].
  cbn [shape data] in E2.
  destruct (shape_eqb (shape a) (shape b)); [|discriminate].
  destruct (shape a) as [|n rest] eqn:Sa.
  { unfold ret in E2. inversion E2; subst v2 s2. discriminate. }
  unfold alloc, ret in E2. inversion E2; subst v2 s2; clear E2.
  unfold on_array in Hrun.
  rewrite (_circ_error_diff_run _ _ _ (lookup_app_new _ _)) in Hrun.
  unfold ret in Hrun. inversion Hrun; subst d s'; clear Hrun.
  rewrite update_app_new.
  rewrite lookup_app_old by (rewrite length_app; simpl; lia).
  now apply lookup_app_old.
Qed.

End AccResults.

(* ===================================================================== *)
(** * acc.py: properties *)
(* ===================================================================== *)

Ltac elems := simpl; unfold vec, scalar; simpl; repeat f_equal; by_cases.

Section AccProperties.

Implicit Types (s : store) (a b : ndarray).

(** ** The seam *)

(** Across the seam: a prediction of 170 and a true value of -170. *)
Lemma circ_error_170_minus_170 :
  result_of (acc.circ_error 0%nat 1%nat) [vec [170]; vec [-170]]
  = Some (vec [20]).
Proof.
  rewrite (circ_error_result _ 0%nat 1%nat (vec [170]) (vec [-170]))
    by (reflexivity || discriminate).
  elems.
Qed.

(** C1, as the code has it: across the seam [circ_error] gives 20 for a
    prediction of 170 and a true value of -170, and so not -20. *)
Lemma circ_error_seam_is_not_minus_20 :
  result_of (acc.circ_error 0%nat 1%nat) [vec [170]; vec [-170]]
  = Some (vec [20])
  /\ result_of (acc.circ_error 0%nat 1%nat) [vec [170]; vec [-170]]
     <> Some (vec [-20]).
Proof.
  rewrite circ_error_170_minus_170.
  split; [reflexivity|].
  intros H. inversion H as [E]. lra.
Qed.

(** C1, amended: [circ_error] of 170 and -170 is 20; and for arrays of one
    dimension or more, with predictions and true values between -180 and
    180, every element of the result has the length of the shorter way
    round, min(|d|, 360 - |d|) for the plain difference d, and the sign of
    d. *)
Theorem circ_error_magnitude_and_sign :
  result_of (acc.circ_error 0%nat 1%nat) [vec [170]; vec [-170]]
  = Some (vec [20])
  /\ forall s y_pred y_true a b,
      lookup s y_pred = Some a -> lookup s y_true = Some b ->
      shape a = shape b -> shape a <> [] ->
      length (data a) = length (data b) ->
      Forall in_range (data a) -> Forall in_range (data b) ->
      exists e,
        result_of (acc.circ_error y_pred y_true) s = Some e
        /\ shape e = shape a
        /\ length (data e) = length (data a)
        /\ forall i, (i < length (data a))%nat ->
             let d := nth i (data a) 0 - nth i (data b) 0 in
             Rabs (nth i (data e) 0) = shorter_path d
             /\ 0 <= nth i (data e) 0 * d.
Proof.
  split; [exact circ_error_170_minus_170|].
  intros s y_pred y_true a b Ha Hb Hs Hr Hl Fa Fb.
  eexists.
  split; [apply (circ_error_result s y_pred y_true a b Ha Hb Hs Hr)|].
  simpl. split; [reflexivity|]. split.
  - rewrite zip_with_length, <- Hl. apply Nat.min_id.
  - intros i Hi. rewrite zip_with_nth by lia.
    apply circ_elem_shorter_path.
    + rewrite Forall_forall in Fa. apply Fa, nth_In, Hi.
    + rewrite Forall_forall in Fb. apply Fb, nth_In. lia.
Qed.

Lemma circ_error_magnitude_and_sign_witness :
  Forall in_range [170] /\ Forall in_range [-170]
  /\ exists e,
      result_of (acc.circ_error 0%nat 1%nat) [vec [170]; vec [-170]] = Some e
      /\ shape e = [1%nat]
      /\ length (data e) = 1%nat
      /\ forall i, (i < 1)%nat ->
           let d := nth i [170] 0 - nth i [-170] 0 in
           Rabs (nth i (data e) 0) = shorter_path d
           /\ 0 <= nth i (data e) 0 * d.
Proof.
  assert (F1 : Forall in_range [170]).
  { constructor; [unfold in_range; lra | constructor]. }
  assert (F2 : Forall in_range [-170]).
  { constructor; [unfold in_range; lra | constructor]. }
  split; [exact F1|]. split; [exact F2|].
  exact (proj2 circ_error_magnitude_and_sign
           [vec [170]; vec [-170]] 0%nat 1%nat (vec [170]) (vec [-170])
           eq_refl eq_refl eq_refl ltac:(discriminate) eq_refl F1 F2).
Defined.

(** ** The range of the reflection *)

(** C3, as the code has it: 1000 is mirrored to -640 and then to 280. *)
Lemma reflect_1000_is_280 :
  result_of (acc._bring_preds_within_range 0%nat) [vec [1000]]
  = Some (vec [280])
  /\ ~ (-180 < 280 <= 180).
Proof.
  rewrite (_bring_preds_within_range_result _ 0%nat (vec [1000]))
    by reflexivity.
  split; [elems | lra].
Qed.

(** The lower end -180 is returned as it is, so it belongs to the range. *)
Lemma reflect_minus_180 :
  result_of (acc._bring_preds_within_range 0%nat) [vec [-180]]
  = Some (vec [-180]).
Proof.
  rewrite (_bring_preds_within_range_result _ 0%nat (vec [-180]))
    by reflexivity.
  elems.
Qed.

(** The elements of the reflection all lie in [-180, 180] exactly when the
    elements of the argument all lie in [-540, 900]. *)
Lemma reflect_in_range_iff s y_preds a :
  lookup s y_preds = Some a ->
  exists e,
    result_of (acc._bring_preds_within_range y_preds) s = Some e
    /\ (Forall in_range (data e)
        <-> Forall (fun v => -540 <= v <= 900) (data a)).
Proof.
  intros H. eexists.
  split; [apply (_bring_preds_within_range_result s y_preds a H)|].
  simpl. rewrite Forall_map. split; apply Forall_impl; intros v;
    apply reflect_elem_in_range.
Qed.

(** C3, amended: for an argument whose elements all lie in [-540, 900] the
    reflection returns an array of the same shape and length whose elements
    all lie in [-180, 180], both ends included. *)
Theorem reflect_in_range s y_preds a :
  lookup s y_preds = Some a ->
  Forall (fun v => -540 <= v <= 900) (data a) ->
  exists e,
    result_of (acc._bring_preds_within_range y_preds) s = Some e
    /\ shape e = shape a
    /\ length (data e) = length (data a)
    /\ Forall in_range (data e).
Proof.
  intros H F. eexists.
  split; [apply (_bring_preds_within_range_result s y_preds a H)|].
  simpl. split; [reflexivity|]. split; [apply length_map|].
  rewrite Forall_map. revert F. apply Forall_impl. intros v.
  apply reflect_elem_in_range.
Qed.

Lemma reflect_in_range_witness :
  Forall (fun v => -540 <= v <= 900) [900; -540; 190; -180]
  /\ exists e,
      result_of (acc._bring_preds_within_range 0%nat)
        [vec [900; -540; 190; -180]] = Some e
      /\ shape e = [4%nat]
      /\ length (data e) = 4%nat
      /\ Forall in_range (data e).
Proof.
  assert (F : Forall (fun v => -540 <= v <= 900) [900; -540; 190; -180]).
  { repeat constructor; lra. }
  split; [exact F|].
  exact (reflect_in_range [vec [900; -540; 190; -180]] 0%nat
           (vec [900; -540; 190; -180]) eq_refl F).
Defined.

(** ** The range of the circular error *)

(** C4, as the code has it: a prediction of 2000 against a true value of 0
    gives 560. *)
Lemma circ_error_2000_is_560 :
  result_of (acc.circ_error 0%nat 1%nat) [vec [2000]; vec [0]]
  = Some (vec [560])
  /\ ~ in_range 560.
Proof.
  rewrite (circ_error_result _ 0%nat 1%nat (vec [2000]) (vec [0]))
    by (reflexivity || discriminate).
  split; [elems | unfold in_range; lra].
Qed.

(** C4, amended: for arrays of one dimension or more, with predictions in
    [-1080, 1440] and true values in [-180, 180], every element of
    [circ_error] lies in [-180, 180]. *)
Theorem circ_error_in_range s y_pred y_true a b :
  lookup s y_pred = Some a -> lookup s y_true = Some b ->
  shape a = shape b -> shape a <> [] ->
  length (data a) = length (data b) ->
  Forall (fun v => -1080 <= v <= 1440) (data a) ->
  Forall in_range (data b) ->
  exists e,
    result_of (acc.circ_error y_pred y_true) s = Some e
    /\ shape e = shape a
    /\ length (data e) = length (data a)
    /\ Forall in_range (data e).
Proof.
  intros Ha Hb Hs Hr Hl Fa Fb. eexists.
  split; [apply (circ_error_result s y_pred y_true a b Ha Hb Hs Hr)|].
  simpl. split; [reflexivity|]. split.
  - rewrite zip_with_length, <- Hl. apply Nat.min_id.
  - eapply zip_with_Forall; [|exact Fa|exact Fb].
    intros x y. apply circ_elem_in_range_wide.
Qed.

Lemma circ_error_in_range_witness :
  Forall (fun v => -1080 <= v <= 1440) [1440; -1080; 1000]
  /\ Forall in_range [-180; 180; 0]
  /\ exists e,
      result_of (acc.circ_error 0%nat 1%nat)
        [vec [1440; -1080; 1000]; vec [-180; 180; 0]] = Some e
      /\ shape e = [3%nat]
      /\ length (data e) = 3%nat
      /\ Forall in_range (data e).
Proof.
  assert (F1 : Forall (fun v => -1080 <= v <= 1440) [1440; -1080; 1000]).
  { apply Forall_cons; [lra|]. apply Forall_cons; [lra|].
    apply Forall_cons; [lra|]. apply Forall_nil. }
  assert (F2 : Forall in_range [-180; 180; 0]).
  { apply Forall_cons; [unfold in_range; lra|].
    apply Forall_cons; [unfold in_range; lra|].
    apply Forall_cons; [unfold in_range; lra|]. apply Forall_nil. }
  split; [exact F1|]. split; [exact F2|].
  exact (circ_error_in_range [vec [1440; -1080; 1000]; vec [-180; 180; 0]]
           0%nat 1%nat (vec [1440; -1080; 1000]) (vec [-180; 180; 0])
           eq_refl eq_refl eq_refl ltac:(discriminate) eq_refl F1 F2).
Defined.

(** The predictions of the amended C4 are all there are: outside
    [-1080, 1440] some true value in range gives an error out of range. *)
Lemma circ_error_in_range_exact (x : R) :
  (forall y, in_range y -> in_range (circ_elem x y)) <-> -1080 <= x <= 1440.
Proof.
  split.
  - intros H.
    assert (H1 : in_range 180) by (unfold in_range; lra).
    assert (H2 : in_range (-180)) by (unfold in_range; lra).
    pose proof (H 180 H1) as A. pose proof (H (-180) H2) as B.
    clear H H1 H2. by_cases.
  - intros H y Hy. now apply circ_elem_in_range_wide.
Qed.

(** On zero-dimensional arrays [circ_error] raises: the difference of two
    such arrays is a scalar, and the wrap-around assigns into it. *)
Example circ_error_zero_dimensional :
  acc.circ_error 0%nat 1%nat [scalar 170; scalar (-170)] = None.
Proof.
  apply (circ_error_run_scalar _ 0%nat 1%nat (scalar 170) (scalar (-170)));
    reflexivity.
Qed.

End AccProperties.

Section Reflection.

Implicit Types (s : store) (a : ndarray).

(** C5, as the code has it: 600 is mirrored to -240, which is below -180 and
    is mirrored again to -120. *)
Lemma reflect_600_is_minus_120 :
  result_of (acc._bring_preds_within_range 0%nat) [vec [600]]
  = Some (vec [-120])
  /\ -120 <> 180 + (180 - 600).
Proof.
  rewrite (_bring_preds_within_range_result _ 0%nat (vec [600]))
    by reflexivity.
  split; [elems | lra].
Qed.

(** C5, amended: an element in (-180, 180] is returned unchanged, an element
    [v] with 180 < v <= 540 becomes 180 + (180 - v), and an element
    [v < -180] becomes -180 + (-180 - v). *)
Theorem reflect_piecewise s y_preds a :
  lookup s y_preds = Some a ->
  exists e,
    result_of (acc._bring_preds_within_range y_preds) s = Some e
    /\ shape e = shape a
    /\ length (data e) = length (data a)
    /\ forall i, (i < length (data a))%nat ->
         let v := nth i (data a) 0 in
         let w := nth i (data e) 0 in
         (-180 < v <= 180 -> w = v)
         /\ (180 < v <= 540 -> w = 180 + (180 - v))
         /\ (v < -180 -> w = -180 + (-180 - v)).
Proof.
  intros H. eexists.
  split; [apply (_bring_preds_within_range_result s y_preds a H)|].
  simpl. split; [reflexivity|]. split; [apply length_map|].
  intros i Hi. rewrite map_nth_lt by exact Hi.
  split; [|split]; intros Hv.
  - apply reflect_elem_id. lra.
  - now apply reflect_elem_above.
  - now apply reflect_elem_below.
Qed.

Lemma reflect_piecewise_witness :
  lookup [vec [190; -190; 0]] 0%nat = Some (vec [190; -190; 0])
  /\ exists e,
      result_of (acc._bring_preds_within_range 0%nat) [vec [190; -190; 0]]
      = Some e
      /\ shape e = [3%nat]
      /\ length (data e) = 3%nat
      /\ forall i, (i < 3)%nat ->
           let v := nth i [190; -190; 0] 0 in
           let w := nth i (data e) 0 in
           (-180 < v <= 180 -> w = v)
           /\ (180 < v <= 540 -> w = 180 + (180 - v))
           /\ (v < -180 -> w = -180 + (-180 - v)).
Proof.
  split; [reflexivity|].
  exact (reflect_piecewise [vec [190; -190; 0]] 0%nat
           (vec [190; -190; 0]) eq_refl).
Defined.

(** The examples of the reflection: 190 gives 170 and -190 gives -170. *)
Example reflect_190 :
  result_of (acc._bring_preds_within_range 0%nat) [vec [190; -190]]
  = Some (vec [170; -170]).
Proof.
  rewrite (_bring_preds_within_range_result _ 0%nat (vec [190; -190]))
    by reflexivity.
  elems.
Qed.

(** Past 540 an element [v] becomes [v - 720]. *)
Lemma reflect_far_above s y_preds a :
  lookup s y_preds = Some a ->
  Forall (fun v => 540 < v) (data a) ->
  result_of (acc._bring_preds_within_range y_preds) s
  = Some (mk_ndarray (shape a) (map (fun v => v - 720) (data a))).
Proof.
  intros H F.
  rewrite (_bring_preds_within_range_result s y_preds a H).
  do 2 f_equal. apply map_ext_in. intros v Hv.
  apply reflect_elem_far_above.
  rewrite Forall_forall in F. now apply F.
Qed.

End Reflection.

(* ===================================================================== *)
(** * acc.py: the aggregate metrics *)
(* ===================================================================== *)

Section Aggregates.

Implicit Types (s : store) (a b : ndarray).

(** The common part of [mse] and [mae]: the difference, then the mean along
    the leading axis of a function [h] of its elements.  On zero-dimensional
    arrays both sides raise. *)
Lemma metric_run (h : R -> R) s y_pred y_true circ_correction a b :
  lookup s y_pred = Some a -> lookup s y_true = Some b -> shape a = shape b ->
  bind (if negb circ_correction
        then np_sub y_pred y_true
        else bind (acc.circ_error y_pred y_true) (fun r => ret (Arr r)))
       (fun diff =>
          bind (contents diff)
               (fun d =>
                  match np_mean_axis0
                          (mk_ndarray (shape d) (map h (data d))) with
                  | Some m => ret m
                  | None => raise
                  end)) s
  = match np_mean_axis0
            (mk_ndarray (shape a) (map h (diff_data circ_correction a b))) with
    | Some m => Some (m, diff_store circ_correction s a b)
    | None => None
    end.
Proof.
  intros Ha Hb Hs. unfold diff_data, diff_store.
  destruct (list_eq_dec Nat.eq_dec (shape a) []) as [Hr|Hr].
  - assert (N : forall d, np_mean_axis0 (mk_ndarray (shape a) d) = None).
    { intros d. unfold np_mean_axis0. cbn [shape]. now rewrite Hr. }
    destruct circ_correction; cbv beta iota delta [negb]; unfold bind.
    + rewrite (circ_error_run_scalar s y_pred y_true a b Ha Hb Hs Hr).
      now rewrite N.
    + rewrite (np_sub_run_scalar s y_pred y_true a b Ha Hb Hs Hr).
      unfold contents, ret. now rewrite N.
  - destruct circ_correction; cbv beta iota delta [negb]; unfold bind.
    + rewrite (circ_error_run s y_pred y_true a b Ha Hb Hs Hr).
      unfold ret, contents, read.
      match goal with
      | |- context [lookup (?s1 ++ [?x]) (S (length ?s0))] =>
          replace (S (length s0)) with (length s1)
            by (rewrite length_app; simpl; lia)
      end.
      rewrite lookup_app_new. cbn [shape data].
      now destruct (np_mean_axis0 _).
    + rewrite (np_sub_run s y_pred y_true a b Ha Hb Hs Hr).
      unfold contents, read. rewrite lookup_app_new. cbn [shape data].
      now destruct (np_mean_axis0 _).
Qed.

Lemma mse_run s y_pred y_true circ_correction a b :
  lookup s y_pred = Some a -> lookup s y_true = Some b -> shape a = shape b ->
  acc.mse y_pred y_true circ_correction s
  = match np_mean_axis0
            (mk_ndarray (shape a)
               (map (fun x => x ^ 2) (diff_data circ_correction a b))) with
    | Some m => Some (m, diff_store circ_correction s a b)
    | None => None
    end.
Proof.
  intros Ha Hb Hs. unfold acc.mse.
  apply (metric_run (fun x => x ^ 2) s y_pred y_true circ_correction a b
           Ha Hb Hs).
Qed.

Lemma mae_run s y_pred y_true circ_correction a b :
  lookup s y_pred = Some a -> lookup s y_true = Some b -> shape a = shape b ->
  acc.mae y_pred y_true circ_correction s
  = match np_mean_axis0
            (mk_ndarray (shape a)
               (map Rabs (diff_data circ_correction a b))) with
    | Some m => Some (m, diff_store circ_correction s a b)
    | None => None
    end.
Proof.
  intros Ha Hb Hs. unfold acc.mae.
  apply (metric_run Rabs s y_pred y_true circ_correction a b Ha Hb Hs).
Qed.

Lemma diff_store_old circ_correction s a b r :
  (r < length s)%nat ->
  lookup (diff_store circ_correction s a b) r = lookup s r.
Proof.
  intros Hr. unfold diff_store. destruct circ_correction.
  - rewrite lookup_app_old by (rewrite length_app; simpl; lia).
    now apply lookup_app_old.
  - now apply lookup_app_old.
Qed.

(** The entries of a one-dimensional array, read back through [column]. *)
Lemma column_vec (l : list R) : column 1 l (length l) 0 = l.
Proof.
  unfold column.
  rewrite (map_ext _ (fun i => nth i l 0))
    by (intros i; f_equal; lia).
  induction l as [|x l IH]; simpl; auto.
  f_equal. rewrite <- seq_shift, map_map. exact IH.
Qed.

(** The mean of a non-empty one-dimensional array is a single number. *)
Lemma np_mean_axis0_vec (l : list R) :
  l <> [] -> np_mean_axis0 (vec l) = Some (scalar (Rsum l / INR (length l))).
Proof.
  intros Hl. unfold np_mean_axis0, vec, scalar. simpl shape. simpl data.
  destruct l as [|x l]; [congruence|].
  change (size_of []) with 1%nat. simpl seq. cbv [map].
  now rewrite (column_vec (x :: l)).
Qed.

End Aggregates.

(** Without the correction [mse] reduces the squared differences. *)
Lemma mse_plain_value (s : store) (y_pred y_true : ref) (a b : ndarray) :
  lookup s y_pred = Some a -> lookup s y_true = Some b -> shape a = shape b ->
  value_of (acc.mse y_pred y_true false) s
  = np_mean_axis0
      (mk_ndarray (shape a)
         (zip_with (fun x y => (x - y) ^ 2) (data a) (data b))).
Proof.
  intros Ha Hb Hs. unfold value_of.
  rewrite (mse_run s y_pred y_true false a b Ha Hb Hs).
  unfold diff_data. rewrite map_zip_with.
  now destruct (np_mean_axis0 _).
Qed.

(** The mean along the leading axis of an array whose leading axis is not
    empty. *)
Lemma np_mean_axis0_cons (a : ndarray) (n : nat) (rest : list nat) :
  shape a = S n :: rest ->
  np_mean_axis0 a
  = Some (mk_ndarray rest
            (map (fun j => Rsum (column (size_of rest) (data a) (S n) j)
                           / INR (S n))
                 (seq 0 (size_of rest)))).
Proof. intros H. unfold np_mean_axis0. now rewrite H. Qed.

Lemma nth_map_seq (f : nat -> R) (n i : nat) :
  (i < n)%nat -> nth i (map f (seq 0 n)) 0 = f i.
Proof.
  intros H.
  rewrite (nth_indep _ 0 (f 0%nat)) by now rewrite length_map, length_seq.
  rewrite map_nth. now rewrite seq_nth.
Qed.

Lemma Rsum_app (l1 l2 : list R) : Rsum (l1 ++ l2) = Rsum l1 + Rsum l2.
Proof.
  induction l1 as [|x l1 IH]; simpl; [lra|].
  change (fold_right Rplus 0 (l1 ++ l2)) with (Rsum (l1 ++ l2)).
  change (fold_right Rplus 0 l1) with (Rsum l1). rewrite IH. lra.
Qed.

(** The sum over the indices 0 .. n, written with the library's sum. *)
Lemma Rsum_seq (f : nat -> R) (n : nat) :
  Rsum (map f (seq 0 (S n))) = sum_f_R0 f n.
Proof.
  induction n as [|n IH]; [simpl; lra|].
  rewrite seq_S, map_app, Rsum_app, IH. simpl. lra.
Qed.

(** Entry [j] of the mean along the leading axis of the squared differences
    of two arrays of shape [S n :: rest]: the squared differences of the
    entries [i * m + j], for [i] from 0 to [n], summed and divided by their
    number. *)
Lemma leading_axis_entry (A B : list R) (n m j : nat) :
  length A = (S n * m)%nat -> length B = (S n * m)%nat -> (j < m)%nat ->
  Rsum (column m (zip_with (fun x y => (x - y) ^ 2) A B) (S n) j)
  = sum_f_R0 (fun i => (nth (i * m + j) A 0 - nth (i * m + j) B 0) ^ 2) n.
Proof.
  intros LA LB Hj. unfold column.
  rewrite <- Rsum_seq. f_equal. apply map_ext_in. intros i Hi.
  apply in_seq in Hi.
  apply zip_with_nth; nia.
Qed.

Section AggregateProperties.

Implicit Types (s : store) (a b : ndarray).

(** C8: without the circular correction, on arrays of shape [S n :: rest]
    [mse] returns an array of shape [rest] whose entry [j] is the mean over
    the leading axis of the squared differences: the squared differences of
    the entries [i * m + j], [m] the size of [rest], summed over [i] from 0
    to [n] and divided by [S n].  For a batch of numbers that is the sum of
    the squares over their count; and the [mse] of [1, 3] against [0, 0] is
    the mean of [1, 9], which is 5. *)
Theorem mse_plain_is_mean_of_squares :
  (forall s y_pred y_true a b n rest,
      lookup s y_pred = Some a -> lookup s y_true = Some b ->
      shape a = S n :: rest -> shape b = S n :: rest ->
      length (data a) = size_of (S n :: rest) ->
      length (data b) = size_of (S n :: rest) ->
      exists m,
        value_of (acc.mse y_pred y_true false) s = Some m
        /\ shape m = rest
        /\ length (data m) = size_of rest
        /\ forall j, (j < size_of rest)%nat ->
             nth j (data m) 0
             = sum_f_R0
                 (fun i => (nth (i * size_of rest + j) (data a) 0
                            - nth (i * size_of rest + j) (data b) 0) ^ 2) n
               / INR (S n))
  /\ (forall s y_pred y_true l1 l2,
         lookup s y_pred = Some (vec l1) -> lookup s y_true = Some (vec l2) ->
         length l1 = length l2 -> l1 <> [] ->
         value_of (acc.mse y_pred y_true false) s
         = Some (scalar (Rsum (zip_with (fun x y => (x - y) ^ 2) l1 l2)
                         / INR (length l1))))
  /\ value_of (acc.mse 0%nat 1%nat false) [vec [1; 3]; vec [0; 0]]
     = Some (scalar 5)
  /\ np_mean_axis0 (vec [1; 9]) = Some (scalar 5).
Proof.
  assert (V : forall s y_pred y_true l1 l2,
             lookup s y_pred = Some (vec l1) ->
             lookup s y_true = Some (vec l2) ->
             length l1 = length l2 -> l1 <> [] ->
             value_of (acc.mse y_pred y_true false) s
             = Some (scalar (Rsum (zip_with (fun x y => (x - y) ^ 2) l1 l2)
                             / INR (length l1)))).
  { intros s y_pred y_true l1 l2 H1 H2 Hl Hne.
    rewrite (mse_plain_value s y_pred y_true _ _ H1 H2)
      by (simpl; now rewrite Hl).
    simpl shape. simpl data.
    set (sq := zip_with _ l1 l2).
    assert (Lsq : length sq = length l1).
    { unfold sq. rewrite zip_with_length, <- Hl. apply Nat.min_id. }
    rewrite <- Lsq. apply (np_mean_axis0_vec sq).
    intros E. rewrite E in Lsq. destruct l1; [congruence | discriminate]. }
  split; [|split; [exact V|split]].
  - intros s y_pred y_true a b n rest Ha Hb Sa Sb La Lb.
    rewrite (mse_plain_value s y_pred y_true a b Ha Hb) by congruence.
    eexists. split; [apply (np_mean_axis0_cons _ n rest); exact Sa|].
    cbn [shape data]. split; [reflexivity|].
    split; [now rewrite length_map, length_seq|].
    intros j Hj. rewrite (nth_map_seq _ _ _ Hj). f_equal.
    apply leading_axis_entry; auto.
  - rewrite (V _ 0%nat 1%nat [1; 3] [0; 0]); try reflexivity; try discriminate.
    elems.
  - rewrite np_mean_axis0_vec by discriminate. elems.
Qed.

Lemma mse_plain_is_mean_of_squares_witness :
  exists m,
    value_of (acc.mse 0%nat 1%nat false)
      [mk_ndarray [2; 3]%nat [1; 2; 3; 4; 5; 6];
       mk_ndarray [2; 3]%nat [0; 1; 0; 1; 0; 1]] = Some m
    /\ shape m = [3%nat]
    /\ length (data m) = size_of [3%nat]
    /\ forall j, (j < size_of [3%nat])%nat ->
         nth j (data m) 0
         = sum_f_R0
             (fun i => (nth (i * size_of [3%nat] + j) [1; 2; 3; 4; 5; 6] 0
                        - nth (i * size_of [3%nat] + j) [0; 1; 0; 1; 0; 1] 0)
                       ^ 2) 1
           / INR 2.
Proof.
  exact (proj1 mse_plain_is_mean_of_squares
           [mk_ndarray [2; 3]%nat [1; 2; 3; 4; 5; 6];
            mk_ndarray [2; 3]%nat [0; 1; 0; 1; 0; 1]] 0%nat 1%nat
           (mk_ndarray [2; 3]%nat [1; 2; 3; 4; 5; 6])
           (mk_ndarray [2; 3]%nat [0; 1; 0; 1; 0; 1]) 1%nat [3%nat]
           eq_refl eq_refl eq_refl eq_refl eq_refl eq_refl).
Defined.

(** With a second axis the mean is taken per column: the leading axis is
    the one reduced. *)
Example mse_two_columns :
  value_of (acc.mse 0%nat 1%nat false)
    [mk_ndarray [2; 2]%nat [1; 2; 3; 4]; mk_ndarray [2; 2]%nat [0; 0; 0; 0]]
  = Some (vec [5; 10]).
Proof.
  rewrite (mse_plain_value _ 0%nat 1%nat
             (mk_ndarray [2; 2]%nat [1; 2; 3; 4])
             (mk_ndarray [2; 2]%nat [0; 0; 0; 0])) by reflexivity.
  unfold np_mean_axis0. elems.
Qed.

(** C10: on arrays of one dimension or more [circ_error] returns a new
    array and only adds arrays to the store, so the arrays of its two
    arguments, and every other array that existed, are unchanged; the same
    holds for every run of [mse] and [mae] with the circular correction. *)
Theorem circ_error_leaves_inputs_unchanged s y_pred y_true a b :
  lookup s y_pred = Some a -> lookup s y_true = Some b -> shape a = shape b ->
  (shape a <> [] ->
   exists d s',
      acc.circ_error y_pred y_true s = Some (d, s')
      /\ (exists e1 e2, s' = s ++ [e1; e2])
      /\ (length s <= d)%nat
      /\ lookup s' y_pred = Some a
      /\ lookup s' y_true = Some b
      /\ forall r, (r < length s)%nat -> lookup s' r = lookup s r)
  /\ (forall m s',
         acc.mse y_pred y_true true s = Some (m, s') ->
         lookup s' y_pred = Some a /\ lookup s' y_true = Some b
         /\ forall r, (r < length s)%nat -> lookup s' r = lookup s r)
  /\ (forall m s',
         acc.mae y_pred y_true true s = Some (m, s') ->
         lookup s' y_pred = Some a /\ lookup s' y_true = Some b
         /\ forall r, (r < length s)%nat -> lookup s' r = lookup s r).
Proof.
  intros Ha Hb Hs.
  pose proof (lookup_lt _ _ _ Ha) as La.
  pose proof (lookup_lt _ _ _ Hb) as Lb.
  assert (K : forall s', (forall r, (r < length s)%nat ->
                                    lookup s' r = lookup s r) ->
                         lookup s' y_pred = Some a /\ lookup s' y_true = Some b
                         /\ forall r, (r < length s)%nat ->
                                      lookup s' r = lookup s r).
  { intros s' F. rewrite !F by assumption. auto. }
  split; [|split].
  - intros Hrank. do 2 eexists.
    split; [apply (circ_error_run s y_pred y_true a b Ha Hb Hs Hrank)|].
    split.
    { do 2 eexists. rewrite <- app_assoc. reflexivity. }
    split; [lia|].
    apply K. intros r Hr.
    apply (diff_store_old true s a b r Hr).
  - intros m s' Hrun.
    rewrite (mse_run s y_pred y_true true a b Ha Hb Hs) in Hrun.
    destruct (np_mean_axis0 _); [|discriminate].
    inversion Hrun; subst. apply K. intros r Hr.
    apply (diff_store_old true s a b r Hr).
  - intros m s' Hrun.
    rewrite (mae_run s y_pred y_true true a b Ha Hb Hs) in Hrun.
    destruct (np_mean_axis0 _); [|discriminate].
    inversion Hrun; subst. apply K. intros r Hr.
    apply (diff_store_old true s a b r Hr).
Qed.

Lemma circ_error_leaves_inputs_unchanged_witness :
  exists d s',
    acc.circ_error 0%nat 1%nat [vec [190; 170]; vec [0; -170]] = Some (d, s')
    /\ (exists e1 e2, s' = [vec [190; 170]; vec [0; -170]] ++ [e1; e2])
    /\ (2 <= d)%nat
    /\ lookup s' 0%nat = Some (vec [190; 170])
    /\ lookup s' 1%nat = Some (vec [0; -170])
    /\ forall r, (r < 2)%nat ->
         lookup s' r = lookup [vec [190; 170]; vec [0; -170]] r.
Proof.
  exact (proj1 (circ_error_leaves_inputs_unchanged
                  [vec [190; 170]; vec [0; -170]] 0%nat 1%nat
                  (vec [190; 170]) (vec [0; -170]) eq_refl eq_refl eq_refl)
           ltac:(discriminate)).
Defined.

(** By contrast [_circ_error_diff] writes into the array it is given: it is
    [circ_error] that hands it a new one. *)
Example _circ_error_diff_mutates :
  acc._circ_error_diff 0%nat [vec [340]] = Some (0%nat, [vec [20]]).
Proof.
  rewrite (_circ_error_diff_run _ 0%nat (vec [340])) by reflexivity.
  elems.
Qed.

(** The metrics return whenever the batch is not empty. *)
Lemma mse_returns s y_pred y_true circ_correction a b n rest :
  lookup s y_pred = Some a -> lookup s y_true = Some b -> shape a = shape b ->
  shape a = S n :: rest ->
  exists m, acc.mse y_pred y_true circ_correction s
            = Some (m, diff_store circ_correction s a b).
Proof.
  intros Ha Hb Hs Hn.
  rewrite (mse_run s y_pred y_true circ_correction a b Ha Hb Hs).
  unfold np_mean_axis0. simpl shape. rewrite Hn. eexists. reflexivity.
Qed.

Lemma mae_returns s y_pred y_true circ_correction a b n rest :
  lookup s y_pred = Some a -> lookup s y_true = Some b -> shape a = shape b ->
  shape a = S n :: rest ->
  exists m, acc.mae y_pred y_true circ_correction s
            = Some (m, diff_store circ_correction s a b).
Proof.
  intros Ha Hb Hs Hn.
  rewrite (mae_run s y_pred y_true circ_correction a b Ha Hb Hs).
  unfold np_mean_axis0. simpl shape. rewrite Hn. eexists. reflexivity.
Qed.

End AggregateProperties.

(* ===================================================================== *)
(** * losses.py *)
(* ===================================================================== *)

Section LossTerms.

(** One term of the circular loss: floored at 1e-10, at most 1, and equal
    to its absolute value. *)
Lemma circular_term_bounds (x : R) :
  1e-10 <= Rmax (0.5 * (1 - cos (PI * x))) 1e-10 <= 1.
Proof.
  pose proof (COS_bound (PI * x)) as [Hlo Hhi].
  unfold Rmax. destruct (Rle_dec _ _); lra.
Qed.

Lemma circular_term_abs (x : R) :
  Rabs (Rmax (0.5 * (1 - cos (PI * x))) 1e-10)
  = Rmax (0.5 * (1 - cos (PI * x))) 1e-10.
Proof.
  apply Rabs_pos_eq. pose proof (circular_term_bounds x). lra.
Qed.

Lemma Rsum_bounds (lo hi : R) (l : list R) :
  Forall (fun x => lo <= x <= hi) l ->
  INR (length l) * lo <= Rsum l <= INR (length l) * hi.
Proof.
  induction 1 as [|x l Hx _ IH].
  - simpl. lra.
  - change (Rsum (x :: l)) with (x + Rsum l).
    change (length (x :: l)) with (S (length l)). rewrite S_INR. lra.
Qed.

(** The mean of a non-empty list lies between bounds of its elements. *)
Lemma mean_bounds (lo hi : R) (l : list R) :
  l <> [] -> Forall (fun x => lo <= x <= hi) l ->
  lo <= Rsum l / INR (length l) <= hi.
Proof.
  intros Hne F. pose proof (Rsum_bounds lo hi l F) as [Hlo Hhi].
  assert (Hn : 0 < INR (length l)).
  { apply lt_0_INR. destruct l; [congruence | simpl; lia]. }
  assert (Hi : 0 < / INR (length l)) by now apply Rinv_0_lt_compat.
  unfold Rdiv. split.
  - replace lo with (INR (length l) * lo * / INR (length l)) by (field; lra).
    apply Rmult_le_compat_r; lra.
  - replace hi with (INR (length l) * hi * / INR (length l)) by (field; lra).
    apply Rmult_le_compat_r; lra.
Qed.

Lemma reduce_mean_one (sh : list nat) (x : R) :
  reduce_mean (mk_ndarray sh [x]) = Some x.
Proof. unfold reduce_mean. simpl. f_equal. lra. Qed.

(** The data that [CircularLoss.call] averages. *)
Lemma CircularLoss_call_unfold (self : losses.CircularLoss) (yt yp : tensor) :
  losses.CircularLoss_call self yt yp
  = match tf_sub yp yt with
    | Some diff =>
        reduce_mean
          (mk_ndarray (shape diff)
             (map (fun x => Rabs (Rmax (0.5 * (1 - cos (PI * x))) 1e-10))
                  (data diff)))
    | None => None
    end.
Proof.
  unfold losses.CircularLoss_call. destruct (tf_sub yp yt) as [diff|]; auto.
  unfold tensor_map. simpl. now rewrite !map_map.
Qed.

Lemma CircularLoss_call_one (self : losses.CircularLoss) (t p : R) :
  losses.CircularLoss_call self (scalar t) (scalar p)
  = Some (Rmax (0.5 * (1 - cos (PI * (p - t)))) 1e-10).
Proof.
  rewrite CircularLoss_call_unfold. unfold tf_sub, scalar. simpl shape.
  rewrite shape_eqb_refl. simpl.
  now rewrite reduce_mean_one, circular_term_abs.
Qed.

Lemma CircularLoss_call_bounds (self : losses.CircularLoss) (yt yp : tensor)
  (l : R) :
  losses.CircularLoss_call self yt yp = Some l -> 1e-10 <= l <= 1.
Proof.
  rewrite CircularLoss_call_unfold.
  destruct (tf_sub yp yt) as [diff|]; [|discriminate].
  unfold reduce_mean. simpl data.
  destruct (map _ (data diff)) as [|x xs] eqn:E; [discriminate|].
  intros H. inversion H; subst l; clear H.
  apply (mean_bounds 1e-10 1 (x :: xs)); [discriminate|].
  rewrite <- E. apply Forall_map, Forall_forall. intros z _.
  rewrite circular_term_abs. apply circular_term_bounds.
Qed.

End LossTerms.

Section LossProperties.

Variable self : losses.CircularLoss.

(** C2, as the code has it: for a true value of 0 and a prediction of 0.5
    the loss is 0.5, half a unit away from 1. *)
Lemma circular_loss_at_half_is_half :
  losses.CircularLoss_call (losses.CircularLoss__init__ tt)
    (scalar 0) (scalar 0.5) = Some 0.5
  /\ Rabs (0.5 - 1) = 0.5.
Proof.
  split.
  - rewrite CircularLoss_call_one.
    replace (PI * (0.5 - 0)) with (PI / 2) by lra.
    rewrite cos_PI2. f_equal. unfold Rmax. destruct (Rle_dec _ _); lra.
  - rewrite Rabs_left; lra.
Qed.

(** One term of the loss where prediction and true value differ by 1 or
    by -1. *)
Lemma circular_term_at_one (d : R) :
  d = 1 \/ d = -1 -> Rmax (0.5 * (1 - cos (PI * d))) 1e-10 = 1.
Proof.
  intros [-> | ->].
  - replace (PI * 1) with PI by lra. rewrite cos_PI.
    unfold Rmax. destruct (Rle_dec _ _); lra.
  - replace (PI * -1) with (- PI) by lra. rewrite cos_neg, cos_PI.
    unfold Rmax. destruct (Rle_dec _ _); lra.
Qed.

Lemma differences_Forall (P : R -> R -> Prop) (Q : R -> Prop) (h : R -> R)
  (l1 l2 : list R) :
  (forall t p, P t p -> Q (h (p - t))) ->
  Forall2 P l1 l2 -> Forall Q (map h (zip_with Rminus l2 l1)).
Proof.
  intros H F. induction F as [|t p l1 l2 Htp _ IH]; simpl; constructor; auto.
Qed.

(** C2, amended: for a true value of 0 and a prediction of 0.5 the loss is
    0.5; the loss is 1 when prediction and true value differ by 1 or -1, for
    one sample and for a batch of such samples; and no loss is above 1. *)
Theorem circular_loss_half_and_maximum :
  losses.CircularLoss_call self (scalar 0) (scalar 0.5) = Some 0.5
  /\ losses.CircularLoss_call self (scalar (-0.5)) (scalar 0.5) = Some 1
  /\ losses.CircularLoss_call self (scalar 0.5) (scalar (-0.5)) = Some 1
  /\ (forall t p,
         p - t = 1 \/ p - t = -1 ->
         losses.CircularLoss_call self (scalar t) (scalar p) = Some 1)
  /\ (forall y_true y_pred,
         shape y_true = shape y_pred -> data y_true <> [] ->
         Forall2 (fun t p => p - t = 1 \/ p - t = -1)
                 (data y_true) (data y_pred) ->
         losses.CircularLoss_call self y_true y_pred = Some 1)
  /\ forall y_true y_pred l,
      losses.CircularLoss_call self y_true y_pred = Some l -> l <= 1.
Proof.
  assert (G : forall t p,
             p - t = 1 \/ p - t = -1 ->
             losses.CircularLoss_call self (scalar t) (scalar p) = Some 1).
  { intros t p H. rewrite CircularLoss_call_one. f_equal.
    now apply circular_term_at_one. }
  split; [|split; [|split; [|split; [exact G|split]]]].
  - rewrite CircularLoss_call_one.
    replace (PI * (0.5 - 0)) with (PI / 2) by lra.
    rewrite cos_PI2. f_equal. unfold Rmax. destruct (Rle_dec _ _); lra.
  - apply G. lra.
  - apply G. lra.
  - intros y_true y_pred Hs Hne F.
    rewrite CircularLoss_call_unfold. unfold tf_sub.
    rewrite <- Hs, shape_eqb_refl. unfold reduce_mean. cbn [data].
    set (d := map _ (zip_with Rminus (data y_pred) (data y_true))).
    assert (Fd : Forall (fun x => 1 <= x <= 1) d).
    { unfold d.
      apply (differences_Forall (fun t p => p - t = 1 \/ p - t = -1)
               (fun x => 1 <= x <= 1)
               (fun x => Rabs (Rmax (0.5 * (1 - cos (PI * x))) 1e-10)));
        [|exact F].
      intros t p H. cbv beta.
      rewrite circular_term_abs, (circular_term_at_one _ H). lra. }
    destruct d as [|x xs] eqn:E.
    + exfalso. unfold d in E. clear Fd.
      destruct F as [|t p l1 l2 _ _]; [congruence | discriminate].
    + f_equal. pose proof (mean_bounds 1 1 (x :: xs)) as B.
      apply Rle_antisym; apply B; try discriminate; exact Fd.
  - intros y_true y_pred l H.
    apply (CircularLoss_call_bounds self y_true y_pred l H).
Qed.

(** C6: the loss of one sample is max(0.5 * (1 - cos(pi * diff)), 1e-10),
    which is at least 1e-10 and not 0; the loss of a batch is the same with
    and without the outer absolute value; and the loss of a true value 0 and
    a prediction 0 is 1e-10. *)
Theorem circular_loss_floor :
  (forall t p, exists l,
      losses.CircularLoss_call self (scalar t) (scalar p) = Some l
      /\ l = Rmax (0.5 * (1 - cos (PI * (p - t)))) 1e-10
      /\ 1e-10 <= l
      /\ l <> 0)
  /\ (forall y_true y_pred,
         losses.CircularLoss_call self y_true y_pred
         = CircularLoss_call_without_abs y_true y_pred)
  /\ losses.CircularLoss_call self (scalar 0) (scalar 0) = Some 1e-10.
Proof.
  repeat split.
  - intros t p. eexists. split; [apply CircularLoss_call_one|].
    pose proof (circular_term_bounds (p - t)).
    repeat split; lra.
  - intros y_true y_pred. rewrite CircularLoss_call_unfold.
    unfold CircularLoss_call_without_abs, tensor_map.
    destruct (tf_sub y_pred y_true) as [diff|]; auto.
    do 2 f_equal. apply map_ext. intros x. apply circular_term_abs.
  - rewrite CircularLoss_call_one.
    replace (PI * (0 - 0)) with 0 by lra.
    rewrite cos_0. f_equal. unfold Rmax. destruct (Rle_dec _ _); lra.
Qed.

End LossProperties.

Lemma circular_loss_half_and_maximum_witness :
  losses.CircularLoss_call (losses.CircularLoss__init__ tt)
    (vec [0; -0.5]) (vec [0.5; 0.5]) = Some 0.75
  /\ 0.75 <= 1
  /\ losses.CircularLoss_call (losses.CircularLoss__init__ tt)
       (vec [-0.5; 0.5; 0.25]) (vec [0.5; -0.5; 1.25]) = Some 1.
Proof.
  assert (E : losses.CircularLoss_call (losses.CircularLoss__init__ tt)
                (vec [0; -0.5]) (vec [0.5; 0.5]) = Some 0.75).
  { rewrite CircularLoss_call_unfold. unfold tf_sub, vec. simpl shape.
    rewrite shape_eqb_refl. unfold reduce_mean. simpl.
    rewrite !circular_term_abs.
    replace (PI * (0.5 - 0)) with (PI / 2) by lra.
    replace (PI * (0.5 - -0.5)) with PI by lra.
    rewrite cos_PI2, cos_PI. f_equal. unfold Rmax.
    repeat destruct (Rle_dec _ _); lra. }
  pose (W := proj2 (proj2 (proj2 (proj2 (circular_loss_half_and_maximum
                                           (losses.CircularLoss__init__ tt)))))).
  split; [exact E|]. split.
  - exact (proj2 W (vec [0; -0.5]) (vec [0.5; 0.5]) 0.75 E).
  - apply (proj1 W (vec [-0.5; 0.5; 0.25]) (vec [0.5; -0.5; 1.25]));
      [reflexivity | discriminate |].
    apply Forall2_cons; [lra|]. apply Forall2_cons; [lra|].
    apply Forall2_cons; [lra|]. apply Forall2_nil.
Defined.

(** C9: the losses computed by two objects built with any two values of
    [exp] are the same, for the circular loss and for the mean-squared loss;
    the objects themselves are the same. *)
Theorem losses_ignore_exp :
  forall (E1 E2 : Type) (exp1 : E1) (exp2 : E2) (y_true y_pred : tensor),
    losses.CircularLoss_call (losses.CircularLoss__init__ exp1) y_true y_pred
    = losses.CircularLoss_call (losses.CircularLoss__init__ exp2) y_true y_pred
    /\ losses.MSE_call (losses.MSE__init__ exp1) y_true y_pred
       = losses.MSE_call (losses.MSE__init__ exp2) y_true y_pred
    /\ losses.CircularLoss__init__ exp1 = losses.CircularLoss__init__ exp2
    /\ losses.MSE__init__ exp1 = losses.MSE__init__ exp2.
Proof. intros. repeat split. Qed.

(* ===================================================================== *)
(** * weight_initializers.py *)
(* ===================================================================== *)

Section Initializer.

Import weight_initializers.

(** A sample scaled into [-edge, edge) has an absolute value in [0, edge]. *)
Lemma abs_sample_bounds (edge u : R) :
  0 <= edge -> 0 <= u < 1 ->
  0 <= Rabs (- edge + u * (edge - - edge)) <= edge.
Proof.
  intros He Hu. split; [apply Rabs_pos|].
  assert (H0 : 0 <= u * edge) by (apply Rmult_le_pos; lra).
  assert (H1 : 0 <= (1 - u) * edge) by (apply Rmult_le_pos; lra).
  apply Rabs_le. split; lra.
Qed.

(** The call on a shape that ends in [fan_in; fan_out]: it returns for the
    element type [float32] of the edge, and raises for any other and for
    none. *)
Lemma __call___run (self : GlorotUniformNonNegative)
  (gen : option Z -> nat -> R) (pre : list nat) (fan_in fan_out : nat)
  (dtype : option DType) :
  __call__ self gen (pre ++ [fan_in; fan_out]) dtype
  = if (fan_in + fan_out =? 0)%nat then None
    else
      match dtype with
      | Some float32 =>
          let edge := sqrt (6 / INR (fan_in + fan_out)) in
          Some (mk_ndarray (pre ++ [fan_in; fan_out])
                  (map (fun i =>
                          Rabs (- edge + gen (seed self) i * (edge - - edge)))
                       (seq 0 (size_of (pre ++ [fan_in; fan_out])))))
      | _ => None
      end.
Proof.
  unfold __call__. rewrite rev_app_distr. cbn [rev app].
  destruct (fan_in + fan_out =? 0)%nat; auto.
  replace 6.0 with 6 by lra.
  unfold random_uniform, tf_neg, tf_sqrt. cbn [st_value st_dtype].
  destruct dtype as [d|]; [destruct d|]; cbn [DType_eqb andb]; try reflexivity.
  unfold tensor_map. cbn [shape data]. now rewrite map_map.
Qed.

(** C7: for a shape that ends in [fan_in; fan_out], every array the
    initializer returns, whatever the element type asked for, has that
    shape, and all its elements lie in [0, edge] with
    edge = sqrt(6 / (fan_in + fan_out)), whatever numbers in [0, 1) the
    generator yields; and for the element type [float32] it returns an
    array unless fan_in + fan_out is 0. *)
Theorem glorot_nonneg_bounds (self : GlorotUniformNonNegative)
  (gen : option Z -> nat -> R) (pre : list nat) (fan_in fan_out : nat) :
  (forall sd i, 0 <= gen sd i < 1) ->
  (forall dtype w,
      __call__ self gen (pre ++ [fan_in; fan_out]) dtype = Some w ->
      shape w = pre ++ [fan_in; fan_out]
      /\ length (data w) = size_of (pre ++ [fan_in; fan_out])
      /\ Forall (fun x => 0 <= x <= sqrt (6 / INR (fan_in + fan_out)))
                (data w))
  /\ ((0 < fan_in + fan_out)%nat ->
      exists w,
        __call__ self gen (pre ++ [fan_in; fan_out]) (Some float32) = Some w).
Proof.
  intros Hgen. split.
  - intros dtype w Hw. rewrite __call___run in Hw.
    destruct (fan_in + fan_out =? 0)%nat; [discriminate|].
    destruct dtype as [d|]; [destruct d|]; try discriminate.
    inversion Hw; subst w; clear Hw. simpl shape. simpl data.
    split; [reflexivity|]. split.
    + now rewrite length_map, length_seq.
    + apply Forall_map, Forall_forall. intros i _.
      apply abs_sample_bounds; [apply sqrt_pos | apply Hgen].
  - intros Hpos. rewrite __call___run.
    destruct (fan_in + fan_out =? 0)%nat eqn:E.
    + apply Nat.eqb_eq in E. lia.
    + eexists. reflexivity.
Qed.

End Initializer.

Lemma glorot_nonneg_bounds_witness :
  (forall (sd : option Z) (i : nat), 0 <= 0.25 < 1)
  /\ exists w,
      weight_initializers.__call__
        (weight_initializers.__init__ (Some 7%Z)) (fun _ _ => 0.25)
        [3; 2; 3]%nat (Some weight_initializers.float32) = Some w
      /\ shape w = [3; 2; 3]%nat
      /\ length (data w) = 18%nat
      /\ Forall (fun x => 0 <= x <= sqrt (6 / INR 5)) (data w).
Proof.
  assert (Hgen : forall (sd : option Z) (i : nat), 0 <= 0.25 < 1)
    by (intros; lra).
  split; [exact Hgen|].
  destruct (glorot_nonneg_bounds
              (weight_initializers.__init__ (Some 7%Z)) (fun _ _ => 0.25)
              [3%nat] 2%nat 3%nat Hgen) as [Hall Hret].
  destruct (Hret ltac:(simpl; lia)) as [w Hw].
  exists w. split; [exact Hw|].
  exact (Hall (Some weight_initializers.float32) w Hw).
Defined.

(* ===================================================================== *)
(** * Further properties of acc.py *)
(* ===================================================================== *)

Section MoreElements.

Implicit Types v d x y : R.

(** An element is left as it is exactly when it lies in [-180, 180]. *)
Lemma wrap_elem_fixed d : wrap_elem d = d <-> in_range d.
Proof. split; intros H; by_cases. Qed.

Lemma reflect_elem_idem v :
  -540 <= v <= 900 -> reflect_elem (reflect_elem v) = reflect_elem v.
Proof.
  intros H. apply reflect_elem_id. now apply reflect_elem_in_range.
Qed.

(** No wrap-around is needed when the two angles are at most 180 apart. *)
Lemma circ_elem_plain x y :
  in_range x -> Rabs (x - y) <= 180 -> circ_elem x y = x - y.
Proof.
  intros Hx Hd.
  assert (Hd' : -180 <= x - y <= 180)
    by (unfold Rabs in Hd; destruct (Rcase_abs (x - y)); lra).
  unfold circ_elem. rewrite reflect_elem_id by exact Hx.
  apply wrap_elem_fixed. unfold in_range. lra.
Qed.

Lemma circ_elem_swap x y :
  in_range x -> in_range y -> circ_elem y x = - circ_elem x y.
Proof.
  intros Hx Hy. unfold circ_elem.
  rewrite !reflect_elem_id by assumption.
  unfold in_range in *. rewrite !wrap_elem_reflect_elem. by_cases.
Qed.

Lemma circ_elem_self x : in_range x -> circ_elem x x = 0.
Proof.
  intros Hx. rewrite circ_elem_plain; auto; [lra|].
  replace (x - x) with 0 by lra. rewrite Rabs_R0. lra.
Qed.

Lemma circ_elem_abs_le x y :
  in_range y -> Rabs (circ_elem x y) <= Rabs (x - y).
Proof.
  intros Hy. unfold Rabs.
  destruct (Rcase_abs (x - y)); destruct (Rcase_abs (circ_elem x y));
    revert r r0; by_cases.
Qed.

Lemma circ_elem_sqr_le x y :
  in_range y -> circ_elem x y ^ 2 <= (x - y) ^ 2.
Proof.
  intros Hy. pose proof (circ_elem_abs_le x y Hy) as H.
  rewrite <- (pow2_abs (circ_elem x y)), <- (pow2_abs (x - y)).
  pose proof (Rabs_pos (circ_elem x y)). nra.
Qed.

End MoreElements.

Section MoreLists.

Lemma map_fixed (f : R -> R) (l : list R) :
  map f l = l <-> Forall (fun x => f x = x) l.
Proof.
  induction l as [|x l IH]; simpl.
  - split; auto.
  - split.
    + intros H. injection H as Hx Hl. constructor; [exact Hx|].
      now apply IH.
    + intros H. inversion H as [|? ? Hx Hl]; subst.
      rewrite Hx. f_equal. now apply IH.
Qed.

Lemma zip_with_swap (f : R -> R -> R) (l1 l2 : list R) :
  zip_with f l1 l2 = zip_with (fun x y => f y x) l2 l1.
Proof.
  revert l2. induction l1 as [|x l1 IH]; intros [|y l2]; simpl; auto.
  now rewrite IH.
Qed.

Lemma zip_with_ext_Forall (P Q : R -> Prop) (f g : R -> R -> R)
  (l1 l2 : list R) :
  (forall x y, P x -> Q y -> f x y = g x y) ->
  Forall P l1 -> Forall Q l2 -> zip_with f l1 l2 = zip_with g l1 l2.
Proof.
  intros E H1. revert l2.
  induction H1 as [|x l1 Hx _ IH]; intros l2 H2; simpl; auto.
  destruct H2 as [|y l2 Hy H2]; auto.
  rewrite (E x y Hx Hy). f_equal. now apply IH.
Qed.

Lemma zip_with_ext_Forall2 (P : R -> R -> Prop) (f g : R -> R -> R)
  (l1 l2 : list R) :
  (forall x y, P x y -> f x y = g x y) ->
  Forall2 P l1 l2 -> zip_with f l1 l2 = zip_with g l1 l2.
Proof.
  intros E H. induction H as [|x y l1 l2 Hxy _ IH]; simpl; auto.
  rewrite (E x y Hxy). now f_equal.
Qed.

Lemma zip_with_diag (f : R -> R -> R) (l : list R) :
  zip_with f l l = map (fun x => f x x) l.
Proof. induction l as [|x l IH]; simpl; auto. now rewrite IH. Qed.

End MoreLists.

Section MoreAcc.

Implicit Types (s : store) (a b : ndarray).

Lemma mse_value s y_pred y_true circ_correction a b :
  lookup s y_pred = Some a -> lookup s y_true = Some b -> shape a = shape b ->
  value_of (acc.mse y_pred y_true circ_correction) s
  = np_mean_axis0
      (mk_ndarray (shape a)
         (map (fun x => x ^ 2) (diff_data circ_correction a b))).
Proof.
  intros Ha Hb Hs. unfold value_of.
  rewrite (mse_run s y_pred y_true circ_correction a b Ha Hb Hs).
  now destruct (np_mean_axis0 _).
Qed.

Lemma mae_value s y_pred y_true circ_correction a b :
  lookup s y_pred = Some a -> lookup s y_true = Some b -> shape a = shape b ->
  value_of (acc.mae y_pred y_true circ_correction) s
  = np_mean_axis0
      (mk_ndarray (shape a) (map Rabs (diff_data circ_correction a b))).
Proof.
  intros Ha Hb Hs. unfold value_of.
  rewrite (mae_run s y_pred y_true circ_correction a b Ha Hb Hs).
  now destruct (np_mean_axis0 _).
Qed.

Lemma np_sub_result s r1 r2 a b :
  lookup s r1 = Some a -> lookup s r2 = Some b -> shape a = shape b ->
  shape a <> [] ->
  result_of_value (np_sub r1 r2) s
  = Some (mk_ndarray (shape a) (zip_with Rminus (data a) (data b))).
Proof.
  intros Ha Hb Hs Hr. unfold result_of_value.
  rewrite (np_sub_run s r1 r2 a b Ha Hb Hs Hr). apply lookup_app_new.
Qed.

(** X1: [_circ_error_diff] works in place.  It returns the reference it was
    given, the store keeps its size and every other array, and the array at
    that reference now holds the wrapped elements; the caller's array is
    unchanged exactly when all its elements were in [-180, 180]. *)
Theorem _circ_error_diff_in_place s diff a :
  lookup s diff = Some a ->
  exists s' e,
    acc._circ_error_diff diff s = Some (diff, s')
    /\ length s' = length s
    /\ lookup s' diff = Some e
    /\ shape e = shape a
    /\ data e = map wrap_elem (data a)
    /\ (forall r, r <> diff -> lookup s' r = lookup s r)
    /\ (e = a <-> Forall in_range (data a)).
Proof.
  intros H. pose proof (lookup_lt _ _ _ H) as Hlt.
  do 2 eexists.
  split; [apply (_circ_error_diff_run s diff a H)|].
  split; [apply update_length|].
  split; [now apply lookup_update_same|].
  split; [reflexivity|]. split; [reflexivity|].
  split; [intros r Hr; apply lookup_update_other; congruence|].
  destruct a as [sh d]. simpl. split.
  - intros E. injection E as E. apply map_fixed in E.
    revert E. apply Forall_impl. intros x. apply wrap_elem_fixed.
  - intros F. f_equal. apply map_fixed.
    revert F. apply Forall_impl. intros x. apply wrap_elem_fixed.
Qed.

Lemma _circ_error_diff_in_place_witness :
  exists s' e,
    acc._circ_error_diff 1%nat [vec [7]; vec [340; -20]] = Some (1%nat, s')
    /\ length s' = 2%nat
    /\ lookup s' 1%nat = Some e
    /\ shape e = [2%nat]
    /\ data e = map wrap_elem [340; -20]
    /\ (forall r, r <> 1%nat ->
                  lookup s' r = lookup [vec [7]; vec [340; -20]] r)
    /\ (e = vec [340; -20] <-> Forall in_range [340; -20]).
Proof.
  exact (_circ_error_diff_in_place [vec [7]; vec [340; -20]] 1%nat
           (vec [340; -20]) eq_refl).
Defined.

(** X2: on an array whose elements lie in [-540, 900] the reflection is
    idempotent: reflecting the reflected array gives the same elements. *)
Theorem reflect_twice s y_preds a :
  lookup s y_preds = Some a ->
  Forall (fun v => -540 <= v <= 900) (data a) ->
  result_of (bind (acc._bring_preds_within_range y_preds)
                  acc._bring_preds_within_range) s
  = result_of (acc._bring_preds_within_range y_preds) s.
Proof.
  intros H F.
  rewrite (_bring_preds_within_range_result s y_preds a H).
  unfold result_of, bind.
  rewrite (_bring_preds_within_range_run s y_preds a H).
  rewrite (_bring_preds_within_range_run _ (length s) _ (lookup_app_new _ _)).
  rewrite lookup_app_new. simpl. do 2 f_equal.
  rewrite map_map. apply map_ext_in. intros v Hv.
  apply reflect_elem_idem. rewrite Forall_forall in F. now apply F.
Qed.

Lemma reflect_twice_witness :
  Forall (fun v => -540 <= v <= 900) [700; -300; 10]
  /\ result_of (bind (acc._bring_preds_within_range 0%nat)
                     acc._bring_preds_within_range) [vec [700; -300; 10]]
     = result_of (acc._bring_preds_within_range 0%nat) [vec [700; -300; 10]].
Proof.
  assert (F : Forall (fun v => -540 <= v <= 900) [700; -300; 10]).
  { repeat constructor; lra. }
  split; [exact F|].
  exact (reflect_twice [vec [700; -300; 10]] 0%nat (vec [700; -300; 10])
           eq_refl F).
Defined.

(** Outside that range a second reflection changes the result. *)
Example reflect_twice_1000 :
  result_of (bind (acc._bring_preds_within_range 0%nat)
                  acc._bring_preds_within_range) [vec [1000]]
  = Some (vec [80]).
Proof.
  unfold result_of, bind.
  rewrite (_bring_preds_within_range_run _ 0%nat (vec [1000])) by reflexivity.
  rewrite (_bring_preds_within_range_run _ 1%nat
             (mk_ndarray [1%nat] (map reflect_elem [1000]))) by reflexivity.
  elems.
Qed.

(** X3: the reflection and the wrap-around compute the same elements; one
    returns them in a new array and the other in the array it was given. *)
Theorem wrap_and_reflect_agree s r :
  result_of (acc._circ_error_diff r) s
  = result_of (acc._bring_preds_within_range r) s.
Proof.
  destruct (lookup s r) as [a|] eqn:H.
  - rewrite (_bring_preds_within_range_result s r a H).
    unfold result_of. rewrite (_circ_error_diff_run s r a H).
    rewrite lookup_update_same by (eapply lookup_lt; eauto).
    do 2 f_equal. apply map_ext. apply wrap_elem_reflect_elem.
  - unfold result_of, acc._circ_error_diff, acc._bring_preds_within_range,
      np_copy, getitem, bind, read.
    now rewrite H.
Qed.

(** X4: the circular error of an array of one dimension or more against
    itself, for elements in [-180, 180], is zero everywhere; the two
    arguments may be one array. *)
Theorem circ_error_self s y a :
  lookup s y = Some a -> shape a <> [] -> Forall in_range (data a) ->
  result_of (acc.circ_error y y) s
  = Some (mk_ndarray (shape a) (map (fun _ => 0) (data a))).
Proof.
  intros H Hr F.
  rewrite (circ_error_result s y y a a H H eq_refl Hr).
  do 2 f_equal. rewrite zip_with_diag. apply map_ext_in. intros x Hx.
  apply circ_elem_self. rewrite Forall_forall in F. now apply F.
Qed.

Lemma circ_error_self_witness :
  Forall in_range [180; -180; 35]
  /\ result_of (acc.circ_error 0%nat 0%nat) [vec [180; -180; 35]]
     = Some (mk_ndarray [3%nat] (map (fun _ => 0) [180; -180; 35])).
Proof.
  assert (F : Forall in_range [180; -180; 35]).
  { repeat constructor; unfold in_range; lra. }
  split; [exact F|].
  exact (circ_error_self [vec [180; -180; 35]] 0%nat (vec [180; -180; 35])
           eq_refl ltac:(discriminate) F).
Defined.

(** Out of range the reflected copy differs from the array itself. *)
Example circ_error_self_190 :
  result_of (acc.circ_error 0%nat 0%nat) [vec [190]] = Some (vec [-20]).
Proof.
  rewrite (circ_error_result _ 0%nat 0%nat (vec [190]) (vec [190]))
    by (reflexivity || discriminate).
  elems.
Qed.

End MoreAcc.

Section MeanAlongAxis.

Lemma column_length (m : nat) (d : list R) (n j : nat) :
  length (column m d n j) = n.
Proof. unfold column. now rewrite length_map, length_seq. Qed.

(** An entry read with default 0 has any property of the elements that 0
    has. *)
Lemma nth_Forall (P : R -> Prop) (l : list R) (k : nat) :
  P 0 -> Forall P l -> P (nth k l 0).
Proof.
  intros P0 F. destruct (nth_in_or_default k l 0) as [Hin|E].
  - rewrite Forall_forall in F. now apply F.
  - now rewrite E.
Qed.

Lemma column_Forall (P : R -> Prop) (m : nat) (d : list R) (n j : nat) :
  P 0 -> Forall P d -> Forall P (column m d n j).
Proof.
  intros P0 F. unfold column. apply Forall_map, Forall_forall.
  intros i _. now apply nth_Forall.
Qed.

Lemma Rsum_nonneg (l : list R) : Forall (fun x => 0 <= x) l -> 0 <= Rsum l.
Proof.
  induction 1 as [|x l Hx _ IH]; simpl; [lra|].
  change (fold_right Rplus 0 l) with (Rsum l). lra.
Qed.

Lemma Rsum_map_le (f g : nat -> R) (l : list nat) :
  (forall i, f i <= g i) -> Rsum (map f l) <= Rsum (map g l).
Proof.
  intros H. induction l as [|i l IH]; simpl; [lra|].
  change (fold_right Rplus 0 (map f l)) with (Rsum (map f l)).
  change (fold_right Rplus 0 (map g l)) with (Rsum (map g l)).
  pose proof (H i). lra.
Qed.

(** The mean along the leading axis of non-negative entries. *)
Lemma np_mean_axis0_nonneg (a : ndarray) (n : nat) (rest : list nat) :
  shape a = S n :: rest -> Forall (fun x => 0 <= x) (data a) ->
  exists m,
    np_mean_axis0 a = Some m
    /\ shape m = rest
    /\ length (data m) = size_of rest
    /\ Forall (fun x => 0 <= x) (data m).
Proof.
  intros Hs F. eexists. split; [apply (np_mean_axis0_cons a n rest Hs)|].
  cbn [shape data]. split; [reflexivity|].
  split; [now rewrite length_map, length_seq|].
  apply Forall_map, Forall_forall. intros j _.
  assert (Hn : 0 < INR (S n)) by (apply lt_0_INR; lia).
  apply Rmult_le_pos; [|left; now apply Rinv_0_lt_compat].
  apply Rsum_nonneg, column_Forall; [lra | exact F].
Qed.

(** The mean along the leading axis of entries between two bounds that have
    0 between them. *)
Lemma np_mean_axis0_bounds (lo hi : R) (a : ndarray) (n : nat)
  (rest : list nat) :
  lo <= 0 <= hi ->
  shape a = S n :: rest -> Forall (fun x => lo <= x <= hi) (data a) ->
  exists m,
    np_mean_axis0 a = Some m
    /\ shape m = rest
    /\ length (data m) = size_of rest
    /\ Forall (fun x => lo <= x <= hi) (data m).
Proof.
  intros H0 Hs F. eexists. split; [apply (np_mean_axis0_cons a n rest Hs)|].
  cbn [shape data]. split; [reflexivity|].
  split; [now rewrite length_map, length_seq|].
  apply Forall_map, Forall_forall. intros j _.
  set (c := column (size_of rest) (data a) (S n) j).
  assert (Lc : length c = S n) by apply column_length.
  rewrite <- Lc. apply mean_bounds.
  - intros E. rewrite E in Lc. discriminate.
  - apply column_Forall; [exact H0 | exact F].
Qed.

(** The mean along the leading axis is monotone in the entries. *)
Lemma np_mean_axis0_le (sh : list nat) (d1 d2 : list R) (n : nat)
  (rest : list nat) :
  sh = S n :: rest ->
  (forall k, nth k d1 0 <= nth k d2 0) ->
  exists m1 m2,
    np_mean_axis0 (mk_ndarray sh d1) = Some m1
    /\ np_mean_axis0 (mk_ndarray sh d2) = Some m2
    /\ shape m1 = rest /\ shape m2 = rest
    /\ Forall2 Rle (data m1) (data m2).
Proof.
  intros Hs H. do 2 eexists.
  split; [apply (np_mean_axis0_cons (mk_ndarray sh d1) n rest Hs)|].
  split; [apply (np_mean_axis0_cons (mk_ndarray sh d2) n rest Hs)|].
  cbn [shape data]. split; [reflexivity|]. split; [reflexivity|].
  induction (seq 0 (size_of rest)) as [|j l IH]; cbn [map];
    constructor; auto.
  assert (Hn : 0 < / INR (S n))
    by (apply Rinv_0_lt_compat, lt_0_INR; lia).
  apply Rmult_le_compat_r; [lra|].
  unfold column. apply Rsum_map_le. intros i. apply H.
Qed.

End MeanAlongAxis.

Section MoreAggregates.

Implicit Types (s : store) (a b : ndarray).

(** X5: on a batch that is not empty, with or without the correction, [mse]
    and [mae] return an array of the shape of one sample (the leading axis
    is gone) whose elements are all non-negative. *)
Theorem metrics_shape_nonneg s y_pred y_true circ_correction a b n rest :
  lookup s y_pred = Some a -> lookup s y_true = Some b -> shape a = shape b ->
  shape a = S n :: rest ->
  (exists m,
      value_of (acc.mse y_pred y_true circ_correction) s = Some m
      /\ shape m = rest
      /\ length (data m) = size_of rest
      /\ Forall (fun x => 0 <= x) (data m))
  /\ (exists m,
         value_of (acc.mae y_pred y_true circ_correction) s = Some m
         /\ shape m = rest
         /\ length (data m) = size_of rest
         /\ Forall (fun x => 0 <= x) (data m)).
Proof.
  intros Ha Hb Hs Hn. split.
  - rewrite (mse_value s y_pred y_true circ_correction a b Ha Hb Hs).
    apply (np_mean_axis0_nonneg _ n rest); [exact Hn|].
    cbn [data]. apply Forall_map, Forall_forall. intros x _.
    apply pow2_ge_0.
  - rewrite (mae_value s y_pred y_true circ_correction a b Ha Hb Hs).
    apply (np_mean_axis0_nonneg _ n rest); [exact Hn|].
    cbn [data]. apply Forall_map, Forall_forall. intros x _.
    apply Rabs_pos.
Qed.

Lemma metrics_shape_nonneg_witness :
  (exists m,
      value_of (acc.mse 0%nat 1%nat true)
        [mk_ndarray [2; 3]%nat [1; 2; 3; 4; 5; 6];
         mk_ndarray [2; 3]%nat [0; 0; 0; 0; 0; 0]] = Some m
      /\ shape m = [3%nat]
      /\ length (data m) = size_of [3%nat]
      /\ Forall (fun x => 0 <= x) (data m))
  /\ (exists m,
         value_of (acc.mae 0%nat 1%nat true)
           [mk_ndarray [2; 3]%nat [1; 2; 3; 4; 5; 6];
            mk_ndarray [2; 3]%nat [0; 0; 0; 0; 0; 0]] = Some m
         /\ shape m = [3%nat]
         /\ length (data m) = size_of [3%nat]
         /\ Forall (fun x => 0 <= x) (data m)).
Proof.
  exact (metrics_shape_nonneg
           [mk_ndarray [2; 3]%nat [1; 2; 3; 4; 5; 6];
            mk_ndarray [2; 3]%nat [0; 0; 0; 0; 0; 0]] 0%nat 1%nat true
           (mk_ndarray [2; 3]%nat [1; 2; 3; 4; 5; 6])
           (mk_ndarray [2; 3]%nat [0; 0; 0; 0; 0; 0]) 1%nat [3%nat]
           eq_refl eq_refl eq_refl eq_refl).
Defined.

(** X6: with the correction, for predictions in [-540, 900] and true values
    in [-180, 180], every element of [mae] is at most 180 and every element
    of [mse] at most 180 squared. *)
Theorem metrics_bounded s y_pred y_true a b n rest :
  lookup s y_pred = Some a -> lookup s y_true = Some b -> shape a = shape b ->
  shape a = S n :: rest ->
  Forall (fun v => -540 <= v <= 900) (data a) -> Forall in_range (data b) ->
  (exists m,
      value_of (acc.mae y_pred y_true true) s = Some m
      /\ shape m = rest
      /\ Forall (fun x => 0 <= x <= 180) (data m))
  /\ (exists m,
         value_of (acc.mse y_pred y_true true) s = Some m
         /\ shape m = rest
         /\ Forall (fun x => 0 <= x <= 32400) (data m)).
Proof.
  intros Ha Hb Hs Hn Fa Fb.
  assert (F : Forall in_range (diff_data true a b)).
  { unfold diff_data. eapply zip_with_Forall; [|exact Fa|exact Fb].
    intros x y. apply circ_elem_in_range. }
  split.
  - rewrite (mae_value s y_pred y_true true a b Ha Hb Hs).
    destruct (np_mean_axis0_bounds 0 180
                (mk_ndarray (shape a) (map Rabs (diff_data true a b)))
                n rest) as (m & E & Sm & _ & Fm); [lra | exact Hn | |].
    + cbn [data]. apply Forall_map. revert F. apply Forall_impl.
      intros x Hx. split; [apply Rabs_pos|].
      apply Rabs_le. unfold in_range in Hx. lra.
    + exists m. auto.
  - rewrite (mse_value s y_pred y_true true a b Ha Hb Hs).
    destruct (np_mean_axis0_bounds 0 32400
                (mk_ndarray (shape a)
                   (map (fun x => x ^ 2) (diff_data true a b)))
                n rest) as (m & E & Sm & _ & Fm); [lra | exact Hn | |].
    + cbn [data]. apply Forall_map. revert F. apply Forall_impl.
      intros x Hx. unfold in_range in Hx. split; [apply pow2_ge_0 | nra].
    + exists m. auto.
Qed.

Lemma metrics_bounded_witness :
  Forall (fun v => -540 <= v <= 900) [900; -540]
  /\ Forall in_range [-180; 180]
  /\ (exists m,
         value_of (acc.mae 0%nat 1%nat true)
           [vec [900; -540]; vec [-180; 180]] = Some m
         /\ shape m = []
         /\ Forall (fun x => 0 <= x <= 180) (data m))
  /\ (exists m,
         value_of (acc.mse 0%nat 1%nat true)
           [vec [900; -540]; vec [-180; 180]] = Some m
         /\ shape m = []
         /\ Forall (fun x => 0 <= x <= 32400) (data m)).
Proof.
  assert (F1 : Forall (fun v => -540 <= v <= 900) [900; -540]).
  { repeat constructor; lra. }
  assert (F2 : Forall in_range [-180; 180]).
  { repeat constructor; unfold in_range; lra. }
  split; [exact F1|]. split; [exact F2|].
  exact (metrics_bounded [vec [900; -540]; vec [-180; 180]] 0%nat 1%nat
           (vec [900; -540]) (vec [-180; 180]) 1%nat []
           eq_refl eq_refl eq_refl eq_refl F1 F2).
Defined.

(** X7: when every prediction is in [-180, 180] and at most 180 away from
    its true value, the correction changes nothing: [mse] and [mae] are the
    same with and without it, and on arrays of one dimension or more
    [circ_error] has the elements of the plain difference. *)
Theorem correction_is_identity_within_180 s y_pred y_true a b :
  lookup s y_pred = Some a -> lookup s y_true = Some b -> shape a = shape b ->
  Forall2 (fun x y => in_range x /\ Rabs (x - y) <= 180) (data a) (data b) ->
  (shape a <> [] ->
   result_of (acc.circ_error y_pred y_true) s
   = result_of_value (np_sub y_pred y_true) s)
  /\ value_of (acc.mse y_pred y_true true) s
     = value_of (acc.mse y_pred y_true false) s
  /\ value_of (acc.mae y_pred y_true true) s
     = value_of (acc.mae y_pred y_true false) s.
Proof.
  intros Ha Hb Hs F.
  assert (E : zip_with circ_elem (data a) (data b)
              = zip_with Rminus (data a) (data b)).
  { eapply zip_with_ext_Forall2; [|exact F].
    intros x y [Hx Hd]. now apply circ_elem_plain. }
  split; [|split].
  - intros Hr.
    rewrite (circ_error_result s y_pred y_true a b Ha Hb Hs Hr).
    rewrite (np_sub_result s y_pred y_true a b Ha Hb Hs Hr).
    now rewrite E.
  - rewrite !(mse_value s y_pred y_true _ a b Ha Hb Hs).
    unfold diff_data. now rewrite E.
  - rewrite !(mae_value s y_pred y_true _ a b Ha Hb Hs).
    unfold diff_data. now rewrite E.
Qed.

Lemma correction_is_identity_within_180_witness :
  Forall2 (fun x y => in_range x /\ Rabs (x - y) <= 180) [100; -90] [-80; 90]
  /\ result_of (acc.circ_error 0%nat 1%nat) [vec [100; -90]; vec [-80; 90]]
     = result_of_value (np_sub 0%nat 1%nat) [vec [100; -90]; vec [-80; 90]]
  /\ value_of (acc.mse 0%nat 1%nat true) [vec [100; -90]; vec [-80; 90]]
     = value_of (acc.mse 0%nat 1%nat false) [vec [100; -90]; vec [-80; 90]]
  /\ value_of (acc.mae 0%nat 1%nat true) [vec [100; -90]; vec [-80; 90]]
     = value_of (acc.mae 0%nat 1%nat false) [vec [100; -90]; vec [-80; 90]].
Proof.
  assert (F : Forall2 (fun x y => in_range x /\ Rabs (x - y) <= 180)
                [100; -90] [-80; 90]).
  { apply Forall2_cons; [|apply Forall2_cons; [|apply Forall2_nil]];
      (split; [unfold in_range; lra|]).
    - replace (100 - -80) with 180 by lra. rewrite Rabs_pos_eq; lra.
    - replace (-90 - 90) with (-180) by lra. rewrite Rabs_left; lra. }
  split; [exact F|].
  pose (W := correction_is_identity_within_180
               [vec [100; -90]; vec [-80; 90]] 0%nat 1%nat
               (vec [100; -90]) (vec [-80; 90]) eq_refl eq_refl eq_refl F).
  split; [exact (proj1 W ltac:(discriminate)) | exact (proj2 W)].
Defined.

End MoreAggregates.

Section CorrectionComparison.

Implicit Types (s : store) (a b : ndarray).

(** Entry by entry (an entry past the end reads as 0) a function of the
    corrected differences is below the same function of the plain ones, once
    it is so for every prediction and every true value in range. *)
Lemma nth_corrected_le (h : R -> R) (l1 l2 : list R) (k : nat) :
  (forall x y, in_range y -> h (circ_elem x y) <= h (x - y)) ->
  Forall in_range l2 ->
  nth k (map h (zip_with circ_elem l1 l2)) 0
  <= nth k (map h (zip_with Rminus l1 l2)) 0.
Proof.
  intros Hh. revert l2 k.
  induction l1 as [|x l1 IH]; intros l2 k F2.
  - destruct k; simpl; lra.
  - destruct F2 as [|y l2 Hy F2].
    + destruct k; simpl; lra.
    + destruct k as [|k]; simpl; [now apply Hh | now apply IH].
Qed.

(** X8: for true values in [-180, 180], whatever the predictions, the
    correction never makes an error larger: each element of [mae] and of
    [mse] with the correction is at most the element without it. *)
Theorem correction_never_increases s y_pred y_true a b n rest :
  lookup s y_pred = Some a -> lookup s y_true = Some b -> shape a = shape b ->
  shape a = S n :: rest ->
  Forall in_range (data b) ->
  (exists m1 m2,
      value_of (acc.mae y_pred y_true true) s = Some m1
      /\ value_of (acc.mae y_pred y_true false) s = Some m2
      /\ shape m1 = rest /\ shape m2 = rest
      /\ Forall2 Rle (data m1) (data m2))
  /\ (exists m1 m2,
         value_of (acc.mse y_pred y_true true) s = Some m1
         /\ value_of (acc.mse y_pred y_true false) s = Some m2
         /\ shape m1 = rest /\ shape m2 = rest
         /\ Forall2 Rle (data m1) (data m2)).
Proof.
  intros Ha Hb Hs Hn Fb. split.
  - rewrite !(mae_value s y_pred y_true _ a b Ha Hb Hs).
    apply (np_mean_axis0_le (shape a) _ _ n rest Hn).
    intros k. unfold diff_data.
    apply nth_corrected_le; auto. apply circ_elem_abs_le.
  - rewrite !(mse_value s y_pred y_true _ a b Ha Hb Hs).
    apply (np_mean_axis0_le (shape a) _ _ n rest Hn).
    intros k. unfold diff_data.
    apply (nth_corrected_le (fun x => x ^ 2)); auto.
    apply circ_elem_sqr_le.
Qed.

Lemma correction_never_increases_witness :
  Forall in_range [-170; 20]
  /\ (exists m1 m2,
         value_of (acc.mae 0%nat 1%nat true) [vec [170; 1000]; vec [-170; 20]]
         = Some m1
         /\ value_of (acc.mae 0%nat 1%nat false)
              [vec [170; 1000]; vec [-170; 20]] = Some m2
         /\ shape m1 = [] /\ shape m2 = []
         /\ Forall2 Rle (data m1) (data m2))
  /\ (exists m1 m2,
         value_of (acc.mse 0%nat 1%nat true) [vec [170; 1000]; vec [-170; 20]]
         = Some m1
         /\ value_of (acc.mse 0%nat 1%nat false)
              [vec [170; 1000]; vec [-170; 20]] = Some m2
         /\ shape m1 = [] /\ shape m2 = []
         /\ Forall2 Rle (data m1) (data m2)).
Proof.
  assert (F2 : Forall in_range [-170; 20]).
  { apply Forall_cons; [|apply Forall_cons; [|apply Forall_nil]];
      unfold in_range; lra. }
  split; [exact F2|].
  exact (correction_never_increases [vec [170; 1000]; vec [-170; 20]]
           0%nat 1%nat (vec [170; 1000]) (vec [-170; 20]) 1%nat []
           eq_refl eq_refl eq_refl eq_refl F2).
Defined.

(** With a true value out of range the correction can make the error
    larger: 190 against 190 is reflected to 170 and gives -20, where the
    plain difference is 0. *)
Example correction_true_out_of_range :
  result_of (acc.circ_error 0%nat 1%nat) [vec [190]; vec [190]]
  = Some (vec [-20])
  /\ result_of_value (np_sub 0%nat 1%nat) [vec [190]; vec [190]]
     = Some (vec [0]).
Proof.
  split.
  - rewrite (circ_error_result _ 0%nat 1%nat (vec [190]) (vec [190]))
      by (reflexivity || discriminate).
    elems.
  - rewrite (np_sub_result _ 0%nat 1%nat (vec [190]) (vec [190]))
      by (reflexivity || discriminate).
    elems.
Qed.

(** X9: [mse] and [mae] do not depend on the order of their two arrays:
    without the correction always, and with it when the elements of both are
    in [-180, 180]. *)
Theorem metrics_symmetric s y_pred y_true a b :
  lookup s y_pred = Some a -> lookup s y_true = Some b -> shape a = shape b ->
  (value_of (acc.mse y_pred y_true false) s
   = value_of (acc.mse y_true y_pred false) s
   /\ value_of (acc.mae y_pred y_true false) s
      = value_of (acc.mae y_true y_pred false) s)
  /\ (Forall in_range (data a) -> Forall in_range (data b) ->
      value_of (acc.mse y_pred y_true true) s
      = value_of (acc.mse y_true y_pred true) s
      /\ value_of (acc.mae y_pred y_true true) s
         = value_of (acc.mae y_true y_pred true) s).
Proof.
  intros Ha Hb Hs.
  assert (P : forall h : R -> R, (forall x, h (- x) = h x) ->
              map h (zip_with Rminus (data a) (data b))
              = map h (zip_with Rminus (data b) (data a))).
  { intros h Hh. rewrite !map_zip_with.
    rewrite (zip_with_swap _ (data b) (data a)).
    apply (zip_with_ext_Forall (fun _ => True) (fun _ => True)).
    - intros x y _ _. rewrite <- Hh. f_equal. lra.
    - apply Forall_forall; auto.
    - apply Forall_forall; auto. }
  assert (Q : forall h : R -> R, (forall x, h (- x) = h x) ->
              Forall in_range (data a) -> Forall in_range (data b) ->
              map h (zip_with circ_elem (data a) (data b))
              = map h (zip_with circ_elem (data b) (data a))).
  { intros h Hh Fa Fb. rewrite !map_zip_with.
    rewrite (zip_with_swap _ (data b) (data a)).
    apply (zip_with_ext_Forall in_range in_range); auto.
    intros x y Hx Hy. rewrite (circ_elem_swap x y Hx Hy). now rewrite Hh. }
  assert (Sq : forall x, (- x) ^ 2 = x ^ 2) by (intros; ring).
  split; [split | intros Fa Fb; split].
  - rewrite (mse_value s y_pred y_true false a b Ha Hb Hs).
    rewrite (mse_value s y_true y_pred false b a Hb Ha (eq_sym Hs)).
    unfold diff_data. now rewrite Hs, (P _ Sq).
  - rewrite (mae_value s y_pred y_true false a b Ha Hb Hs).
    rewrite (mae_value s y_true y_pred false b a Hb Ha (eq_sym Hs)).
    unfold diff_data. now rewrite Hs, (P _ Rabs_Ropp).
  - rewrite (mse_value s y_pred y_true true a b Ha Hb Hs).
    rewrite (mse_value s y_true y_pred true b a Hb Ha (eq_sym Hs)).
    unfold diff_data. now rewrite Hs, (Q _ Sq Fa Fb).
  - rewrite (mae_value s y_pred y_true true a b Ha Hb Hs).
    rewrite (mae_value s y_true y_pred true b a Hb Ha (eq_sym Hs)).
    unfold diff_data. now rewrite Hs, (Q _ Rabs_Ropp Fa Fb).
Qed.

End CorrectionComparison.

Lemma metrics_symmetric_witness :
  Forall in_range [170; -30] /\ Forall in_range [-170; 45]
  /\ (value_of (acc.mse 0%nat 1%nat false) [vec [170; -30]; vec [-170; 45]]
      = value_of (acc.mse 1%nat 0%nat false) [vec [170; -30]; vec [-170; 45]]
      /\ value_of (acc.mae 0%nat 1%nat false) [vec [170; -30]; vec [-170; 45]]
         = value_of (acc.mae 1%nat 0%nat false)
             [vec [170; -30]; vec [-170; 45]])
  /\ (value_of (acc.mse 0%nat 1%nat true) [vec [170; -30]; vec [-170; 45]]
      = value_of (acc.mse 1%nat 0%nat true) [vec [170; -30]; vec [-170; 45]]
      /\ value_of (acc.mae 0%nat 1%nat true) [vec [170; -30]; vec [-170; 45]]
         = value_of (acc.mae 1%nat 0%nat true)
             [vec [170; -30]; vec [-170; 45]]).
Proof.
  assert (F1 : Forall in_range [170; -30]).
  { apply Forall_cons; [|apply Forall_cons; [|apply Forall_nil]];
      unfold in_range; lra. }
  assert (F2 : Forall in_range [-170; 45]).
  { apply Forall_cons; [|apply Forall_cons; [|apply Forall_nil]];
      unfold in_range; lra. }
  split; [exact F1|]. split; [exact F2|].
  pose (W := metrics_symmetric [vec [170; -30]; vec [-170; 45]] 0%nat 1%nat
               (vec [170; -30]) (vec [-170; 45]) eq_refl eq_refl eq_refl).
  split; [exact (proj1 W) | exact (proj2 W F1 F2)].
Defined.

(* ===================================================================== *)
(** * Further properties of losses.py *)
(* ===================================================================== *)

Section MoreLossLemmas.

Lemma zip_with_ext (f g : R -> R -> R) (l1 l2 : list R) :
  (forall x y, f x y = g x y) -> zip_with f l1 l2 = zip_with g l1 l2.
Proof.
  intros E. revert l2. induction l1 as [|x l1 IH]; intros [|y l2]; simpl; auto.
  now rewrite E, IH.
Qed.

Lemma tf_sub_same_shape (a b : tensor) :
  shape a = shape b ->
  tf_sub a b = Some (mk_ndarray (shape a) (zip_with Rminus (data a) (data b))).
Proof. intros H. unfold tf_sub. now rewrite H, shape_eqb_refl. Qed.

Lemma tf_sub_other_shape (a b : tensor) :
  shape a <> shape b -> tf_sub a b = None.
Proof.
  intros H. unfold tf_sub, shape_eqb.
  destruct (list_eq_dec Nat.eq_dec (shape a) (shape b)); congruence.
Qed.

Lemma reduce_mean_data (t : tensor) :
  data t <> [] ->
  reduce_mean t = Some (Rsum (data t) / INR (length (data t))).
Proof. unfold reduce_mean. destruct (data t); congruence. Qed.

(** [reduce_mean] reads the elements only. *)
Lemma reduce_mean_shape (sh1 sh2 : list nat) (d : list R) :
  reduce_mean (mk_ndarray sh1 d) = reduce_mean (mk_ndarray sh2 d).
Proof. reflexivity. Qed.

(** The data that [MSE.call] averages: the absolute value is squared
    away. *)
Lemma MSE_call_unfold (self : losses.MSE) (yt yp : tensor) :
  losses.MSE_call self yt yp
  = match tf_sub yp yt with
    | Some diff =>
        reduce_mean
          (mk_ndarray (shape diff) (map (fun x => x ^ 2) (data diff)))
    | None => None
    end.
Proof.
  unfold losses.MSE_call. destruct (tf_sub yp yt) as [diff|]; auto.
  unfold tensor_map. cbn [shape data]. rewrite map_map.
  do 2 f_equal. apply map_ext. intros x. apply pow2_abs.
Qed.

Lemma Rsum_zero (l : list R) :
  Forall (fun x => 0 <= x) l -> Rsum l = 0 -> Forall (fun x => x = 0) l.
Proof.
  induction 1 as [|x l Hx F IH]; intros E; constructor.
  - change (Rsum (x :: l)) with (x + Rsum l) in E.
    pose proof (Rsum_nonneg l F). lra.
  - apply IH. change (Rsum (x :: l)) with (x + Rsum l) in E.
    pose proof (Rsum_nonneg l F). lra.
Qed.

Lemma Rsum_all_zero (l : list R) : Forall (fun x => x = 0) l -> Rsum l = 0.
Proof.
  induction 1 as [|x l Hx _ IH]; simpl; [reflexivity|].
  change (fold_right Rplus 0 l) with (Rsum l). lra.
Qed.

Lemma squared_differences_zero (l1 l2 : list R) :
  length l1 = length l2 ->
  (Forall (fun x => x = 0) (map (fun x => x ^ 2) (zip_with Rminus l1 l2))
   <-> l1 = l2).
Proof.
  revert l2. induction l1 as [|x l1 IH]; intros [|y l2] Hl; simpl in Hl;
    try discriminate.
  - simpl. split; auto.
  - simpl. injection Hl as Hl. split.
    + intros F. inversion F as [|? ? Hx F']; subst.
      f_equal; [nra | now apply IH].
    + intros E. injection E as -> ->. constructor; [ring|].
      now apply IH.
Qed.


End MoreLossLemmas.

Section MoreLossProperties.

Implicit Types (y_true y_pred : tensor).

Lemma zip_with_nonempty (f : R -> R -> R) (l1 l2 : list R) :
  l1 <> [] -> l2 <> [] -> zip_with f l1 l2 <> [].
Proof. destruct l1, l2; simpl; congruence. Qed.

Lemma map_nonempty (f : R -> R) (l : list R) : l <> [] -> map f l <> [].
Proof. destruct l; simpl; congruence. Qed.

(** Over the reals the mean-squared loss is 0 only for an exact prediction.
    (Floating point has no such converse: the square of a tiny difference
    is 0.) *)
Lemma MSE_zero_iff_equal_over_reals (self : losses.MSE) y_true y_pred :
  shape y_true = shape y_pred ->
  length (data y_true) = length (data y_pred) ->
  data y_pred <> [] ->
  (exists l, losses.MSE_call self y_true y_pred = Some l /\ 0 <= l)
  /\ (losses.MSE_call self y_true y_pred = Some 0
      <-> data y_pred = data y_true).
Proof.
  intros Hs Hl Hne.
  assert (Hne' : data y_true <> []).
  { intros E. rewrite E in Hl. destruct (data y_pred); [congruence|].
    discriminate. }
  rewrite MSE_call_unfold, (tf_sub_same_shape y_pred y_true (eq_sym Hs)).
  set (d := map (fun x => x ^ 2) (zip_with Rminus (data y_pred) (data y_true))).
  assert (Hd : d <> []) by now apply map_nonempty, zip_with_nonempty.
  assert (Fd : Forall (fun x => 0 <= x) d).
  { apply Forall_map, Forall_forall. intros x _. apply pow2_ge_0. }
  assert (Hn : 0 < INR (length d)).
  { apply lt_0_INR. destruct d; [congruence | simpl; lia]. }
  rewrite reduce_mean_data by exact Hd. cbn [data]. fold d.
  split.
  - eexists. split; [reflexivity|].
    apply Rmult_le_pos; [now apply Rsum_nonneg|].
    left. now apply Rinv_0_lt_compat.
  - rewrite <- (squared_differences_zero _ _ (eq_sym Hl)). fold d. split.
    + intros E. injection E as E. apply Rsum_zero; [exact Fd|].
      unfold Rdiv in E. apply Rmult_integral in E. destruct E as [E|E]; auto.
      pose proof (Rinv_0_lt_compat _ Hn). lra.
    + intros F. rewrite (Rsum_all_zero d F). f_equal. unfold Rdiv. ring.
Qed.

(** X10: on tensors of one shape that are not empty, the mean-squared loss
    is defined and non-negative, and it is 0 when the prediction equals the
    true value everywhere. *)
Theorem MSE_nonneg_and_zero_when_exact (self : losses.MSE) y_true y_pred :
  shape y_true = shape y_pred ->
  length (data y_true) = length (data y_pred) ->
  data y_pred <> [] ->
  (exists l, losses.MSE_call self y_true y_pred = Some l /\ 0 <= l)
  /\ (data y_pred = data y_true ->
      losses.MSE_call self y_true y_pred = Some 0).
Proof.
  intros Hs Hl Hne.
  destruct (MSE_zero_iff_equal_over_reals self y_true y_pred Hs Hl Hne)
    as [D Z].
  split; [exact D | apply Z].
Qed.

Lemma MSE_nonneg_and_zero_when_exact_witness :
  (exists l, losses.MSE_call (losses.MSE__init__ tt)
               (vec [0.1; -0.2]) (vec [0.1; -0.2]) = Some l /\ 0 <= l)
  /\ losses.MSE_call (losses.MSE__init__ tt)
       (vec [0.1; -0.2]) (vec [0.1; -0.2]) = Some 0.
Proof.
  pose (W := MSE_nonneg_and_zero_when_exact (losses.MSE__init__ tt)
               (vec [0.1; -0.2]) (vec [0.1; -0.2]) eq_refl eq_refl
               (fun E : [0.1; -0.2] = [] => eq_ind [0.1; -0.2]
                  (fun l => match l with [] => False | _ :: _ => True end)
                  I [] E)).
  split; [exact (proj1 W) | exact (proj2 W eq_refl)].
Defined.

(** Without the correction the [mse] of a batch of numbers is a single
    number. *)
Lemma mse_plain_vec (s : store) (y_pred y_true : ref) (l1 l2 : list R) :
  lookup s y_pred = Some (vec l1) -> lookup s y_true = Some (vec l2) ->
  length l1 = length l2 -> l1 <> [] ->
  value_of (acc.mse y_pred y_true false) s
  = Some (scalar (Rsum (zip_with (fun x y => (x - y) ^ 2) l1 l2)
                  / INR (length l1))).
Proof.
  intros H1 H2 Hl Hne.
  rewrite (mse_plain_value s y_pred y_true _ _ H1 H2)
    by (simpl; now rewrite Hl).
  simpl shape. simpl data.
  set (sq := zip_with _ l1 l2).
  assert (Lsq : length sq = length l1).
  { unfold sq. rewrite zip_with_length, <- Hl. apply Nat.min_id. }
  rewrite <- Lsq. apply (np_mean_axis0_vec sq).
  intros E. rewrite E in Lsq. destruct l1; [congruence | discriminate].
Qed.

(** X11: on a batch of numbers the mean-squared loss of [losses.py] and the
    [mse] of [acc.py] without the correction are the same number (the loss
    takes the true values first, the metric the predictions). *)
Theorem MSE_loss_agrees_with_mse (self : losses.MSE) (s : store)
  (y_pred y_true : ref) (l1 l2 : list R) :
  lookup s y_pred = Some (vec l1) -> lookup s y_true = Some (vec l2) ->
  length l1 = length l2 -> l1 <> [] ->
  exists v,
    value_of (acc.mse y_pred y_true false) s = Some (scalar v)
    /\ losses.MSE_call self (vec l2) (vec l1) = Some v.
Proof.
  intros H1 H2 Hl Hne. eexists.
  split; [apply (mse_plain_vec s y_pred y_true l1 l2 H1 H2 Hl Hne)|].
  rewrite MSE_call_unfold, tf_sub_same_shape by (simpl; now rewrite Hl).
  cbn [shape data vec]. rewrite map_zip_with.
  set (sq := zip_with _ l1 l2).
  assert (Lsq : length sq = length l1).
  { unfold sq. rewrite zip_with_length, <- Hl. apply Nat.min_id. }
  rewrite reduce_mean_data; cbn [data].
  - now rewrite Lsq.
  - intros E. rewrite E in Lsq. destruct l1; [congruence | discriminate].
Qed.

Lemma MSE_loss_agrees_with_mse_witness :
  exists v,
    value_of (acc.mse 0%nat 1%nat false) [vec [1; 3]; vec [0; 0]]
    = Some (scalar v)
    /\ losses.MSE_call (losses.MSE__init__ tt) (vec [0; 0]) (vec [1; 3])
       = Some v.
Proof.
  exact (MSE_loss_agrees_with_mse (losses.MSE__init__ tt)
           [vec [1; 3]; vec [0; 0]] 0%nat 1%nat [1; 3] [0; 0]
           eq_refl eq_refl eq_refl
           (fun E : [1; 3] = [] => eq_ind [1; 3]
              (fun l => match l with [] => False | _ :: _ => True end)
              I [] E)).
Defined.

(** X12: both losses give the same number when the true values and the
    predictions are exchanged. *)
Theorem losses_symmetric (c : losses.CircularLoss) (m : losses.MSE)
  (a b : tensor) :
  losses.CircularLoss_call c a b = losses.CircularLoss_call c b a
  /\ losses.MSE_call m a b = losses.MSE_call m b a.
Proof.
  rewrite !CircularLoss_call_unfold, !MSE_call_unfold.
  destruct (list_eq_dec Nat.eq_dec (shape a) (shape b)) as [E|N].
  - rewrite (tf_sub_same_shape a b E), (tf_sub_same_shape b a (eq_sym E)).
    cbn [shape data].
    rewrite (reduce_mean_shape (shape b) (shape a)).
    rewrite (reduce_mean_shape (shape b) (shape a)
               (map (fun x => x ^ 2) _)).
    rewrite !map_zip_with.
    split; rewrite (zip_with_swap _ (data b) (data a));
      f_equal; f_equal; apply zip_with_ext; intros x y.
    + replace (PI * (y - x)) with (- (PI * (x - y))) by lra.
      now rewrite cos_neg.
    + ring.
  - rewrite (tf_sub_other_shape a b N).
    rewrite (tf_sub_other_shape b a) by congruence.
    auto.
Qed.

(** Over the reals the circular loss has period 2 in the prediction: adding
    an even number to every prediction leaves the loss unchanged.  (In
    floating point the two losses differ by rounding.) *)
Lemma circular_loss_period_over_reals (self : losses.CircularLoss) y_true y_pred
  (k : nat) :
  losses.CircularLoss_call self y_true
    (tensor_map (fun x => x + 2 * INR k) y_pred)
  = losses.CircularLoss_call self y_true y_pred.
Proof.
  rewrite !CircularLoss_call_unfold. unfold tf_sub, tensor_map.
  cbn [shape data].
  destruct (shape_eqb (shape y_pred) (shape y_true)); auto.
  cbn [shape data]. rewrite zip_with_map_l, !map_zip_with.
  do 2 f_equal. apply zip_with_ext. intros x y.
  replace (PI * (x + 2 * INR k - y)) with (PI * (x - y) + 2 * INR k * PI)
    by lra.
  now rewrite cos_period.
Qed.

(** One full turn is not a period: a prediction that is off by 1 has the
    largest loss, not the smallest. *)
Example circular_loss_shift_by_one (self : losses.CircularLoss) :
  losses.CircularLoss_call self (scalar 0.25)
    (tensor_map (fun x => x + 1) (scalar 0.25)) = Some 1.
Proof.
  unfold tensor_map, scalar. cbn [shape data map].
  change (mk_ndarray [] [0.25 + 1]) with (scalar (0.25 + 1)).
  change (mk_ndarray [] [0.25]) with (scalar 0.25).
  rewrite CircularLoss_call_one.
  replace (PI * (0.25 + 1 - 0.25)) with PI by lra.
  rewrite cos_PI. f_equal. unfold Rmax. destruct (Rle_dec _ _); lra.
Qed.





End MoreLossProperties.

(* ===================================================================== *)
(** * Further properties of weight_initializers.py *)
(* ===================================================================== *)

Section MoreInitializer.

Import weight_initializers.

(** The elements of a returned array, bounded by the edge. *)
Lemma __call___elements (self : GlorotUniformNonNegative)
  (gen : option Z -> nat -> R) (pre : list nat) (fan_in fan_out : nat)
  (dtype : option DType) (w : tensor) :
  (forall sd i, 0 <= gen sd i < 1) ->
  __call__ self gen (pre ++ [fan_in; fan_out]) dtype = Some w ->
  Forall (fun x => 0 <= x <= sqrt (6 / INR (fan_in + fan_out))) (data w).
Proof.
  intros Hgen. rewrite __call___run.
  destruct (fan_in + fan_out =? 0)%nat; [discriminate|].
  destruct dtype as [d|]; [destruct d|]; try discriminate.
  intros Hw. inversion Hw; subst w; clear Hw. cbn [data].
  apply Forall_map, Forall_forall. intros i _.
  apply abs_sample_bounds; [apply sqrt_pos | apply Hgen].
Qed.

(** X16: the initializer returns an array exactly when the element type
    asked for is [float32], the shape has rank at least 2 and its last two
    dimensions are not both 0.  With no element type (the default of the
    parameter) or another one, for a shape of rank 0 or 1, and for
    fan_in = fan_out = 0, it raises. *)
Theorem initializer_returns_iff (self : GlorotUniformNonNegative)
  (gen : option Z -> nat -> R) (sh : list nat) (dtype : option DType) :
  (exists w, __call__ self gen sh dtype = Some w)
  <-> dtype = Some float32
      /\ exists pre fan_in fan_out,
          sh = pre ++ [fan_in; fan_out] /\ (0 < fan_in + fan_out)%nat.
Proof.
  split.
  - intros [w H].
    assert (S : exists pre fan_in fan_out, sh = pre ++ [fan_in; fan_out]).
    { unfold __call__ in H.
      destruct (rev sh) as [|fan_out [|fan_in l]] eqn:E; try discriminate.
      exists (rev l), fan_in, fan_out.
      rewrite <- (rev_involutive sh), E. cbn [rev].
      now rewrite <- app_assoc. }
    destruct S as (pre & fan_in & fan_out & ->).
    rewrite __call___run in H.
    destruct (fan_in + fan_out =? 0)%nat eqn:Z; [discriminate|].
    destruct dtype as [d|]; [destruct d|]; try discriminate.
    split; [reflexivity|]. exists pre, fan_in, fan_out.
    split; [reflexivity|]. apply Nat.eqb_neq in Z. lia.
  - intros (-> & pre & fan_in & fan_out & -> & Hpos).
    rewrite __call___run.
    destruct (fan_in + fan_out =? 0)%nat eqn:Z.
    + apply Nat.eqb_eq in Z. lia.
    + eexists. reflexivity.
Qed.

(** The calls that raise. *)
Example initializer_raises (self : GlorotUniformNonNegative)
  (gen : option Z -> nat -> R) (n : nat) (dtype : option DType) :
  __call__ self gen [] dtype = None
  /\ __call__ self gen [n] dtype = None
  /\ __call__ self gen [n; 0; 0]%nat dtype = None
  /\ __call__ self gen [2; 3]%nat None = None
  /\ __call__ self gen [2; 3]%nat (Some float64) = None.
Proof. repeat split. Qed.

(** X17: the bounds 0 and edge are both reached.  In an array the
    initializer returns, where the generator yields 0 the sample is -edge
    and the weight is edge itself, although the samples stay below edge;
    where it yields 1/2 the weight is 0. *)
Theorem initializer_extreme_weights (self : GlorotUniformNonNegative)
  (gen : option Z -> nat -> R) (pre : list nat) (fan_in fan_out i : nat)
  (dtype : option DType) (w : tensor) :
  __call__ self gen (pre ++ [fan_in; fan_out]) dtype = Some w ->
  (i < size_of (pre ++ [fan_in; fan_out]))%nat ->
  (gen (seed self) i = 0 ->
   nth i (data w) 0 = sqrt (6 / INR (fan_in + fan_out)))
  /\ (gen (seed self) i = 1 / 2 -> nth i (data w) 0 = 0).
Proof.
  intros Hw Hi. rewrite __call___run in Hw.
  destruct (fan_in + fan_out =? 0)%nat; [discriminate|].
  destruct dtype as [d|]; [destruct d|]; try discriminate.
  inversion Hw; subst w; clear Hw. cbn [data].
  rewrite nth_map_seq by exact Hi.
  pose proof (sqrt_pos (6 / INR (fan_in + fan_out))) as He.
  split; intros ->.
  - rewrite Rmult_0_l, Rplus_0_r, Rabs_Ropp. now apply Rabs_pos_eq.
  - replace (- sqrt (6 / INR (fan_in + fan_out)) +
             1 / 2 * (sqrt (6 / INR (fan_in + fan_out)) -
                      - sqrt (6 / INR (fan_in + fan_out)))) with 0 by lra.
    apply Rabs_R0.
Qed.

Lemma initializer_extreme_weights_witness :
  exists w,
    __call__ (__init__ None) (fun _ i => if (i =? 4)%nat then 0 else 1 / 2)
      [2; 3]%nat (Some float32) = Some w
    /\ nth 4 (data w) 0 = sqrt (6 / INR (2 + 3))
    /\ nth 5 (data w) 0 = 0.
Proof.
  assert (E : exists w,
             __call__ (__init__ None)
               (fun _ i => if (i =? 4)%nat then 0 else 1 / 2)
               [2; 3]%nat (Some float32) = Some w).
  { rewrite (__call___run _ _ [] 2%nat 3%nat). cbn [Nat.add Nat.eqb].
    eexists. reflexivity. }
  destruct E as [w Hw]. exists w. split; [exact Hw|].
  split.
  - exact (proj1 (initializer_extreme_weights (__init__ None)
                    (fun _ i => if (i =? 4)%nat then 0 else 1 / 2)
                    [] 2%nat 3%nat 4%nat (Some float32) w Hw
                    ltac:(simpl; lia)) eq_refl).
  - exact (proj2 (initializer_extreme_weights (__init__ None)
                    (fun _ i => if (i =? 4)%nat then 0 else 1 / 2)
                    [] 2%nat 3%nat 5%nat (Some float32) w Hw
                    ltac:(simpl; lia)) eq_refl).
Defined.

(** X18: the bound scales with the layer: when fan_in + fan_out is doubled
    the weights of every array the initializer returns are bounded by the
    former edge divided by the square root of 2. *)
Theorem initializer_bound_scaling (self : GlorotUniformNonNegative)
  (gen : option Z -> nat -> R) (pre : list nat)
  (fan_in fan_out n : nat) (dtype : option DType) (w : tensor) :
  (forall sd i, 0 <= gen sd i < 1) ->
  (0 < n)%nat -> (fan_in + fan_out = 2 * n)%nat ->
  __call__ self gen (pre ++ [fan_in; fan_out]) dtype = Some w ->
  Forall (fun x => 0 <= x <= sqrt (6 / INR n) / sqrt 2) (data w).
Proof.
  intros Hgen Hn Hsum Hw.
  pose proof (__call___elements self gen pre fan_in fan_out dtype w Hgen Hw)
    as F.
  assert (Hpos : 0 < INR n) by now apply lt_0_INR.
  replace (sqrt (6 / INR n) / sqrt 2)
    with (sqrt (6 / INR (fan_in + fan_out))); [exact F|].
  rewrite Hsum, mult_INR. change (INR 2) with (1 + 1).
  replace (6 / ((1 + 1) * INR n)) with (6 / INR n / 2) by (field; lra).
  apply sqrt_div_alt. lra.
Qed.

Lemma initializer_bound_scaling_witness :
  (forall (sd : option Z) (i : nat), 0 <= 0.25 < 1)
  /\ exists w,
      __call__ (__init__ (Some 7%Z)) (fun _ _ => 0.25) [4; 6]%nat
        (Some float32) = Some w
      /\ Forall (fun x => 0 <= x <= sqrt (6 / INR 5) / sqrt 2) (data w).
Proof.
  assert (Hgen : forall (sd : option Z) (i : nat), 0 <= 0.25 < 1)
    by (intros; lra).
  split; [exact Hgen|].
  assert (E : exists w,
             __call__ (__init__ (Some 7%Z)) (fun _ _ => 0.25) [4; 6]%nat
               (Some float32) = Some w).
  { rewrite (__call___run _ _ [] 4%nat 6%nat). cbn [Nat.add Nat.eqb].
    eexists. reflexivity. }
  destruct E as [w Hw]. exists w. split; [exact Hw|].
  exact (initializer_bound_scaling (__init__ (Some 7%Z)) (fun _ _ => 0.25)
           [] 4%nat 6%nat 5%nat (Some float32) w Hgen ltac:(lia) eq_refl Hw).
Defined.

End MoreInitializer.

(* ===================================================================== *)
(** * The reflection works on a copy *)
(* ===================================================================== *)

(** X19: [_bring_preds_within_range] never writes into its argument.  It
    returns a reference that did not exist before, the store is the old one
    with the reflected array added at the end, and the argument still holds
    the array it held, also when that array has elements out of range. *)
Theorem reflection_returns_copy (s : store) (y_preds : ref) (a : ndarray) :
  lookup s y_preds = Some a ->
  exists r e,
    acc._bring_preds_within_range y_preds s = Some (r, s ++ [e])
    /\ r = length s
    /\ r <> y_preds
    /\ lookup s r = None
    /\ lookup (s ++ [e]) r = Some e
    /\ lookup (s ++ [e]) y_preds = Some a.
Proof.
  intros H. pose proof (lookup_lt _ _ _ H) as Hlt.
  do 2 eexists.
  split; [apply (_bring_preds_within_range_run s y_preds a H)|].
  split; [reflexivity|]. split; [lia|].
  split; [apply nth_error_None; lia|].
  split; [apply lookup_app_new|].
  now rewrite lookup_app_old.
Qed.

Lemma reflection_returns_copy_witness :
  exists r e,
    acc._bring_preds_within_range 0%nat [vec [190; 0]]
    = Some (r, [vec [190; 0]] ++ [e])
    /\ r = 1%nat
    /\ r <> 0%nat
    /\ lookup [vec [190; 0]] r = None
    /\ lookup ([vec [190; 0]] ++ [e]) r = Some e
    /\ lookup ([vec [190; 0]] ++ [e]) 0%nat = Some (vec [190; 0]).
Proof.
  exact (reflection_returns_copy [vec [190; 0]] 0%nat (vec [190; 0]) eq_refl).
Defined.
